(** * PICRUSt2 metagenome pipeline: a shallow embedding

    This development embeds [picrust2/metagenome_pipeline.py] in Rocq and
    proves properties of its stages: confidence (NSTI) filtering,
    normalisation by marker copy number, rare-sequence classification, the
    per-sample aggregation and the assembly of the stratified and
    unstratified tables.

    Conventions of the embedding.
    - A pandas cell is a [value]: an exact rational, or one of the three
      special values of a float ([inf], [-inf], [NaN]).  Arithmetic on finite
      values is exact; the rounding error of binary64 and the sign of zero are
      not modelled.  The special values follow IEEE 754 (x/0, inf-inf, 0*inf),
      and the reductions follow pandas ([sum] skips [NaN]).
    - A [DataFrame] is an ordered list of labelled rows under an ordered list
      of column labels; a [Series] is an ordered list of labelled values.
      Labels are unique within an axis (biom tables and [pd.read_table]
      guarantee it), which the theorems state as hypotheses where they
      depend on it.
    - Python exceptions and [sys.exit] are values of [error]; a function that
      can raise returns a [result].
    - Reading and writing files is outside the embedding: the pipeline takes
      the three tables as already parsed.  No sample or function is labelled
      with one of the column names the pipeline itself introduces
      ([sequence], [function], [count]). *)

From Stdlib Require Import List String Ascii Bool ZArith QArith Qcanon Qround.
From Stdlib Require Import Qabs Lia Lqa Permutation Sorted.
Import ListNotations.

Local Open Scope string_scope.
Local Open Scope list_scope.
Local Open Scope Z_scope.

(** ** Cell values *)

Inductive value : Type :=
| Fin (q : Qc)
| PInf
| NInf
| NaN.

Definition qc (z : Z) : Qc := Q2Qc (inject_Z z).

Definition zero : value := Fin (qc 0).

Definition is_nan (v : value) : bool :=
  match v with NaN => true | _ => false end.

Definition is_fin (v : value) : bool :=
  match v with Fin _ => true | _ => false end.

Definition vadd (a b : value) : value :=
  match a, b with
  | NaN, _ | _, NaN => NaN
  | PInf, NInf | NInf, PInf => NaN
  | PInf, _ | _, PInf => PInf
  | NInf, _ | _, NInf => NInf
  | Fin x, Fin y => Fin (x + y)%Qc
  end.

(** The infinity with the sign of [c], or [NaN] for a zero factor. *)
Definition inf_of_sign (c : comparison) : value :=
  match c with Eq => NaN | Gt => PInf | Lt => NInf end.

Definition vmul (a b : value) : value :=
  match a, b with
  | NaN, _ | _, NaN => NaN
  | Fin x, Fin y => Fin (x * y)%Qc
  | Fin x, PInf | PInf, Fin x => inf_of_sign (x ?= qc 0)%Qc
  | Fin x, NInf | NInf, Fin x => inf_of_sign (CompOpp (x ?= qc 0)%Qc)
  | PInf, PInf | NInf, NInf => PInf
  | PInf, NInf | NInf, PInf => NInf
  end.

(** Float division: a finite value over zero is an infinity of its sign, and
    zero over zero is [NaN]; no exception is raised. *)
Definition vdiv (a b : value) : value :=
  match a, b with
  | NaN, _ | _, NaN => NaN
  | Fin x, Fin y =>
      if Qc_eq_dec y (qc 0) then inf_of_sign (x ?= qc 0)%Qc
      else Fin (x / y)%Qc
  | Fin _, PInf | Fin _, NInf => zero
  | PInf, Fin y =>
      match (y ?= qc 0)%Qc with Lt => NInf | _ => PInf end
  | NInf, Fin y =>
      match (y ?= qc 0)%Qc with Lt => PInf | _ => NInf end
  | _, _ => NaN
  end.

(** [numpy.rint]: round to the nearest integer, ties to the even one. *)
Definition rint (q : Q) : Z :=
  let n := Qfloor q in
  match Qcompare (q - inject_Z n) (1 # 2) with
  | Lt => n
  | Gt => n + 1
  | Eq => if Z.even n then n else n + 1
  end.

(** [round(decimals=d)] is [rint(x * 10^d) / 10^d]. *)
Definition round_decimals (d : Z) (v : value) : value :=
  match v with
  | Fin x =>
      let p := inject_Z (10 ^ d) in
      Fin (Q2Qc (inject_Z (rint (x * p)) / p))
  | _ => v
  end.

(** Comparisons of floats: every comparison with [NaN] is false, except
    [!=] which is true. *)
Definition vltb (a b : value) : bool :=
  match a, b with
  | NaN, _ | _, NaN => false
  | Fin x, Fin y => match (x ?= y)%Qc with Lt => true | _ => false end
  | NInf, NInf => false
  | NInf, _ => true
  | Fin _, PInf => true
  | _, _ => false
  end.

Definition veqb (a b : value) : bool :=
  match a, b with
  | Fin x, Fin y => match (x ?= y)%Qc with Eq => true | _ => false end
  | PInf, PInf | NInf, NInf => true
  | _, _ => false
  end.

Definition vleb (a b : value) : bool := vltb a b || veqb a b.

Definition vneb (a b : value) : bool := negb (veqb a b).

Definition vsum (l : list value) : value := fold_right vadd zero l.

(** [Series.sum()] and [DataFrame.sum(axis)]: [skipna=True] by default. *)
Definition sum_skipna (l : list value) : value :=
  vsum (filter (fun v => negb (is_nan v)) l).

(** ** Errors *)

Inductive error : Type :=
| SystemExit (msg : string)
| ValueError (msg : string)
| KeyError (label : string)
| IndexError (msg : string).

Inductive result (A : Type) : Type :=
| OK (a : A)
| Raise (e : error).

Arguments OK {A} a.
Arguments Raise {A} e.

Definition bind {A B : Type} (m : result A) (k : A -> result B) : result B :=
  match m with
  | OK a => k a
  | Raise e => Raise e
  end.

Notation "x <- m ;; k" := (bind m (fun x => k))
  (at level 61, m at next level, right associativity).

(** ** Labels *)

Class Label (K : Type) : Type := {
  label_eqb : K -> K -> bool;
  label_eqb_spec : forall x y : K, reflect (x = y) (label_eqb x y)
}.

#[export] Instance string_Label : Label string :=
  {| label_eqb := String.eqb; label_eqb_spec := String.eqb_spec |}.

Definition pair_eqb (x y : string * string) : bool :=
  (fst x =? fst y)%string && (snd x =? snd y)%string.

Lemma pair_eqb_spec (x y : string * string) : reflect (x = y) (pair_eqb x y).
Proof.
  destruct x as [a b], y as [c d]; unfold pair_eqb; simpl.
  destruct (String.eqb_spec a c), (String.eqb_spec b d); simpl;
    constructor; congruence.
Qed.

#[export] Instance pair_Label : Label (string * string) :=
  {| label_eqb := pair_eqb; label_eqb_spec := pair_eqb_spec |}.

(** ** Series and frames *)

Definition Series (K : Type) : Type := list (K * value).

Record Frame (K : Type) : Type := mkFrame {
  columns : list string;
  rows : list (K * list value)
}.

Arguments mkFrame {K} columns rows.
Arguments columns {K} f.
Arguments rows {K} f.

Definition DataFrame : Type := Frame string.

Definition index {K A : Type} (l : list (K * A)) : list K := map fst l.

(** Look a label up in a labelled list (first match). *)
Fixpoint lookup {K A : Type} `{Label K} (k : K) (l : list (K * A)) : option A :=
  match l with
  | [] => None
  | (k', a) :: l' => if label_eqb k k' then Some a else lookup k l'
  end.

Definition mem {K : Type} `{Label K} (k : K) (l : list K) : bool :=
  existsb (label_eqb k) l.

(** Position of a column label (the length of the list when it is absent). *)
Fixpoint col_pos (c : string) (cols : list string) : nat :=
  match cols with
  | [] => O
  | c' :: cols' => if (c =? c')%string then O else S (col_pos c cols')
  end.

(** [s[k]] with [NaN] for a label that is absent after alignment. *)
Definition get {K : Type} `{Label K} (k : K) (s : Series K) : value :=
  match lookup k s with Some v => v | None => NaN end.

(** [df.at[k, c]] as an option, and with a default for absent rows. *)
Definition cell {K : Type} `{Label K} (df : Frame K) (k : K) (c : string)
  : option value :=
  match lookup k (rows df) with
  | Some r => Some (nth (col_pos c (columns df)) r NaN)
  | None => None
  end.

(** [df[c]]: one column as a series over the row labels. *)
Definition get_column {K : Type} (df : Frame K) (c : string) : Series K :=
  let j := col_pos c (columns df) in
  map (fun r => (fst r, nth j (snd r) NaN)) (rows df).

(** ** pandas primitives used by the pipeline *)

Definition has_column {K : Type} (c : string) (df : Frame K) : bool :=
  existsb (String.eqb c) (columns df).

(** [df.empty]: some axis has length zero. *)
Definition empty {K : Type} (df : Frame K) : bool :=
  match columns df, rows df with
  | _ :: _, _ :: _ => false
  | _, _ => true
  end.

Fixpoint remove_nth {A : Type} (n : nat) (l : list A) : list A :=
  match l, n with
  | [], _ => []
  | _ :: l', O => l'
  | a :: l', S n' => a :: remove_nth n' l'
  end.

(** [df[df[c] <= t]]: boolean row mask on one column. *)
Definition filter_le {K : Type} (df : Frame K) (c : string) (t : value)
  : Frame K :=
  let j := col_pos c (columns df) in
  mkFrame (columns df)
          (filter (fun r => vleb (nth j (snd r) NaN) t) (rows df)).

(** [df[[c]]]: a one-column frame. *)
Definition select_column {K : Type} (df : Frame K) (c : string) : Frame K :=
  let j := col_pos c (columns df) in
  mkFrame [c] (map (fun r => (fst r, [nth j (snd r) NaN])) (rows df)).

(** [df.drop(c, axis=1)]. *)
Definition drop_column {K : Type} (df : Frame K) (c : string) : Frame K :=
  let j := col_pos c (columns df) in
  mkFrame (remove_nth j (columns df))
          (map (fun r => (fst r, remove_nth j (snd r))) (rows df)).

(** [df.mul(s, axis=0)]: every row of [df] times the entry of [s] with the
    same label, [NaN] where [s] has no such label.  A label of [s] that [df]
    lacks would add a row of [NaN]: [calc_weighted_nsti] sums the product
    with [skipna], where such a row counts for nothing, and
    [func_by_seq_abun] is documented to receive a series over the index of
    [df]; the rows are not built here. *)
Definition mul_axis0 {K : Type} `{Label K} (df : Frame K) (s : Series K)
  : Frame K :=
  mkFrame (columns df)
          (map (fun r => (fst r, map (fun v => vmul v (get (fst r) s)) (snd r)))
               (rows df)).

(** [df.sum(axis=0)]: a series over the column labels. *)
Definition sum_axis0 {K : Type} (df : Frame K) : Series string :=
  map (fun c => (c, sum_skipna (map snd (get_column df c)))) (columns df).

(** [df.loc[labels]]: rows selected by label, in the order of [labels]. *)
Definition loc_rows {K : Type} `{Label K} (df : Frame K) (labels : list K)
  : Frame K :=
  mkFrame (columns df)
          (map (fun k => (k, match lookup k (rows df) with
                             | Some r => r
                             | None => map (fun _ => NaN) (columns df)
                             end)) labels).

(** [df.drop(labels=labels, axis=0)]. *)
Definition drop_rows {K : Type} `{Label K} (df : Frame K) (labels : list K)
  : Frame K :=
  mkFrame (columns df) (filter (fun r => negb (mem (fst r) labels)) (rows df)).

(** [df.loc[k] = s]: overwrite the row labelled [k], or append it. *)
Fixpoint set_row_in {K : Type} `{Label K} (k : K) (r : list value)
  (l : list (K * list value)) : list (K * list value) :=
  match l with
  | [] => [(k, r)]
  | (k', r') :: l' =>
      if label_eqb k k' then (k', r) :: l' else (k', r') :: set_row_in k r l'
  end.

Definition set_row {K : Type} `{Label K} (df : Frame K) (k : K)
  (s : Series string) : Frame K :=
  mkFrame (columns df)
          (set_row_in k (map (fun c => get c s) (columns df)) (rows df)).

(** [pd.melt] with the row label as [id_vars], followed by
    [set_index(["function", "sequence"])["count"]]: one entry per column and
    row, columns outermost. *)
Definition melt (df : DataFrame) : Series (string * string) :=
  flat_map (fun f => map (fun e => ((f, fst e), snd e)) (get_column df f))
           (columns df).

(** [pd.concat(l, axis=1)].  All the series built by [funcs_by_sample] have
    the same index (lemma [func_by_seq_abun_index]), so the outer join of the
    indices is the index of the first one.  The column labels handed out by
    [concat] are overwritten right after by [set_columns]. *)
Definition concat_axis1 {K : Type} `{Label K} (l : list (Series K))
  : result (Frame K) :=
  match l with
  | [] => Raise (ValueError "No objects to concatenate")
  | s0 :: _ =>
      OK (mkFrame (map (fun _ => "") l)
                  (map (fun k => (k, map (get k) l)) (index s0)))
  end.

(** [~(df == 0).all(axis=1)] for one row: some value is not zero. *)
Definition nonzero_row {K : Type} (r : K * list value) : bool :=
  negb (forallb (fun v => veqb v zero) (snd r)).

(** [df.loc[~(df == 0).all(axis=1)]]. *)
Definition drop_zero_rows {K : Type} (df : Frame K) : Frame K :=
  mkFrame (columns df) (filter nonzero_row (rows df)).

Definition set_columns {K : Type} (df : Frame K) (cols : list string)
  : Frame K :=
  mkFrame cols (rows df).

(** Sorting of labels, as [groupby] and [sort_index] do. *)
Fixpoint insert_sorted (x : string) (l : list string) : list string :=
  match l with
  | [] => [x]
  | y :: l' => if String.leb x y then x :: l else y :: insert_sorted x l'
  end.

Definition sort_labels (l : list string) : list string :=
  fold_right insert_sorted [] l.

Definition unique (l : list string) : list string := nodup string_dec l.

(** One cell of the grouped sum: the rows of function [f], column [c]. *)
Definition group_sum (df : Frame (string * string)) (f c : string) : value :=
  sum_skipna
    (map snd
         (get_column
            (mkFrame (columns df)
                     (filter (fun r => (fst (fst r) =? f)%string) (rows df)))
            c)).

(** [pd.pivot_table(df.reset_index().drop("sequence", axis=1),
    index="function", aggfunc=np.sum)]: group the rows by function and sum
    every sample column; groups come out sorted, rows that are [NaN]
    throughout are dropped, the columns are sorted, and columns that are
    [NaN] throughout are dropped ([dropna=True]). *)
Definition pivot_table (df : Frame (string * string)) : DataFrame :=
  let groups := sort_labels (unique (map (fun r => fst (fst r)) (rows df))) in
  let values := columns df in
  let agged :=
    match values with
    | [] => groups
    | _ => filter (fun f => existsb (fun c => negb (is_nan (group_sum df f c)))
                                    values) groups
    end in
  let cols :=
    filter (fun c => existsb (fun f => negb (is_nan (group_sum df f c))) agged)
           (sort_labels values) in
  mkFrame cols (map (fun f => (f, map (group_sum df f) cols)) agged).

(** ** joblib worker pool

    [Parallel(n_jobs)(delayed(f)(x) for x in xs)] runs the tasks on a pool
    and returns the results in the order of submission.  The order in which
    the workers complete is not determined by the program: it is the
    parameter [sched], a list of task numbers read in that order; numbers out
    of range and repetitions are ignored, and the tasks it does not mention
    complete afterwards.  Every completion stores its result in the slot of
    its task. *)

Fixpoint store {A : Type} (i : nat) (a : A) (slots : list (option A))
  : list (option A) :=
  match slots, i with
  | [], _ => []
  | _ :: slots', O => Some a :: slots'
  | s :: slots', S i' => s :: store i' a slots'
  end.

Definition completion_order (sched : list nat) (n : nat) : list nat :=
  let first := nodup Nat.eq_dec (filter (fun i => Nat.ltb i n) sched) in
  first ++ filter (fun i => negb (existsb (Nat.eqb i) first)) (seq 0 n).

Definition complete {A B : Type} (f : A -> B) (tasks : list A)
  (slots : list (option B)) (i : nat) : list (option B) :=
  match nth_error tasks i with
  | Some t => store i (f t) slots
  | None => slots
  end.

Definition collect {B : Type} (slots : list (option B)) : list B :=
  flat_map (fun s => match s with Some b => [b] | None => [] end) slots.

Definition Parallel {A B : Type} (sched : list nat) (f : A -> B)
  (tasks : list A) : list B :=
  collect (fold_left (complete f tasks)
                     (completion_order sched (List.length tasks))
                     (map (fun _ => None) tasks)).

(** ** The pipeline *)

Definition quote : string := String (ascii_of_nat 34) EmptyString.

Definition RARE : string := "RARE".

Definition NSTI : string := "metadata_NSTI".

Definition rare_name_msg : string :=
  ("Stopping: the sequence called " ++ quote ++ RARE ++ quote ++
   " in the sequence abundance table should be re-named.")%string.

(** A Python [set] of labels is a list without repetitions; Python leaves the
    iteration order of a set unspecified, and the pipeline reads the rare set
    only through membership and through sums over its rows. *)
Definition set_union (a b : list string) : list string :=
  a ++ filter (fun k => negb (mem k a)) b.

(** [in_counts[in_counts.sum(axis=1) < min_reads].index] as a set. *)
Definition low_freq_seq (in_counts : DataFrame) (min_reads : Z) : list string :=
  unique (index (filter (fun r => vltb (sum_skipna (snd r))
                                       (Fin (qc min_reads)))
                        (rows in_counts))).

(** [(in_counts != 0).astype(int).sum(axis=1)] for one row. *)
Definition samples_present (r : list value) : Z :=
  Z.of_nat (List.length (filter (fun v => vneb v zero) r)).

Definition few_samples_seq (in_counts : DataFrame) (min_samples : Z)
  : list string :=
  unique (index (filter (fun r => samples_present (snd r) <? min_samples)
                        (rows in_counts))).

Definition id_rare_seqs (in_counts : DataFrame) (min_reads min_samples : Z)
  : result (list string) :=
  if mem RARE (index (rows in_counts)) then Raise (SystemExit rare_name_msg)
  else OK (set_union (low_freq_seq in_counts min_reads)
                     (few_samples_seq in_counts min_samples)).

(** The index of the value returned by [func_by_seq_abun]: function labels,
    or (function, sequence) pairs when [calc_strat] is set. *)
Definition ix (calc_strat : bool) : Type :=
  if calc_strat then (string * string)%type else string.

#[export] Instance ix_Label (b : bool) : Label (ix b) :=
  match b with true => pair_Label | false => string_Label end.

(** The rows of the rare sequences summed into one row labelled RARE. *)
Definition collapse_rare (func_abun_depth : DataFrame) (rare_seqs : list string)
  : DataFrame :=
  match rare_seqs with
  | [] => func_abun_depth
  | _ :: _ =>
      let rare_subset_sum := sum_axis0 (loc_rows func_abun_depth rare_seqs) in
      set_row (drop_rows func_abun_depth rare_seqs) RARE rare_subset_sum
  end.

Definition func_by_seq_abun (sample_seq_counts : Series string)
  (func_abun : DataFrame) (rare_seqs : list string) (calc_strat : bool)
  : Series (ix calc_strat) :=
  let func_abun_depth :=
    collapse_rare (mul_axis0 func_abun sample_seq_counts) rare_seqs in
  match calc_strat return Series (ix calc_strat) with
  | true => melt func_abun_depth
  | false => sum_axis0 func_abun_depth
  end.

Definition StratFrame : Type := Frame (string * string).

(** Lines 157-162 of [funcs_by_sample]: the rare set the aggregator works
    with.  The classifier runs only for stratified output with a threshold
    other than 1. *)
Definition rare_seqs_of (strat_out : bool) (input_seq_counts : DataFrame)
  (min_reads min_samples : Z) : result (list string) :=
  if strat_out && (negb (min_reads =? 1) || negb (min_samples =? 1))
  then id_rare_seqs input_seq_counts min_reads min_samples
  else OK [].

Definition funcs_by_sample (sched : list nat)
  (input_seq_counts input_function_num : DataFrame) (strat_out : bool)
  (proc min_reads min_samples : Z)
  : result (option StratFrame * DataFrame) :=
  let sample_ids := columns input_seq_counts in
  rare_seqs <- rare_seqs_of strat_out input_seq_counts min_reads min_samples ;;
  let task := fun sample =>
    func_by_seq_abun (get_column input_seq_counts sample)
                     input_function_num rare_seqs strat_out in
  let sample_funcs :=
    if proc >? 1 then Parallel sched task sample_ids
    else fold_left (fun acc sample => acc ++ [task sample]) sample_ids [] in
  sample_funcs_df <- concat_axis1 sample_funcs ;;
  let sample_funcs_df :=
    set_columns (drop_zero_rows sample_funcs_df) sample_ids in
  match strat_out as b
        return Frame (ix b) -> result (option StratFrame * DataFrame) with
  | true => fun df => OK (Some df, pivot_table df)
  | false => fun df => OK (None, df)
  end sample_funcs_df.

(** [df.loc[labels, c]]: a missing label raises [KeyError]. *)
Fixpoint loc_column (df : DataFrame) (labels : list string) (c : string)
  : result (Series string) :=
  match labels with
  | [] => OK []
  | k :: labels' =>
      match lookup k (rows df) with
      | None => Raise (KeyError k)
      | Some r =>
          s <- loc_column df labels' c ;;
          OK ((k, nth (col_pos c (columns df)) r NaN) :: s)
      end
  end.

(** [df.div(s, axis="index")]. *)
Definition div_axis0 (df : DataFrame) (s : Series string) : DataFrame :=
  mkFrame (columns df)
          (map (fun r => (fst r, map (fun v => vdiv v (get (fst r) s)) (snd r)))
               (rows df)).

Definition round_frame (d : Z) (df : DataFrame) : DataFrame :=
  mkFrame (columns df)
          (map (fun r => (fst r, map (round_decimals d) (snd r))) (rows df)).

Definition norm_by_marker_copies (input_seq_counts input_marker_num : DataFrame)
  (round_decimal : Z) : result DataFrame :=
  marker_col <-
    match columns input_marker_num with
    | [] => Raise (IndexError "index 0 is out of bounds")
    | c :: _ => OK c
    end ;;
  copies <- loc_column input_marker_num (index (rows input_seq_counts))
                       marker_col ;;
  OK (round_frame round_decimal (div_axis0 input_seq_counts copies)).

Definition calc_weighted_nsti (seq_counts nsti_input : DataFrame) : DataFrame :=
  let nsti_mult := mul_axis0 seq_counts (get_column nsti_input NSTI) in
  let num := sum_axis0 nsti_mult in
  let den := sum_axis0 seq_counts in
  mkFrame ["weighted_NSTI"]
          (map (fun s => (s, [vdiv (get s num) (get s den)]))
               (columns seq_counts)).

(** [df.reindex(labels)]. *)
Definition reindex (df : DataFrame) (labels : list string) : DataFrame :=
  loc_rows df labels.

(** Modelled from the spec: [picrust2.util.three_df_index_overlap_sort] is
    not part of the sources at hand.  Following section 4.1 of the
    specification it intersects the three row indices, returns each table
    reindexed to the intersection in one shared order (here the order of the
    first table, the study sequences), and fails when nothing is shared. *)
Definition three_df_index_overlap_sort (df1 df2 df3 : DataFrame)
  : result (DataFrame * DataFrame * DataFrame) :=
  let label_overlap :=
    filter (fun q => mem q (index (rows df2)) && mem q (index (rows df3)))
           (index (rows df1)) in
  match label_overlap with
  | [] => Raise (ValueError "No sequence ids overlap between all three tables")
  | _ :: _ =>
      OK (reindex df1 label_overlap, reindex df2 label_overlap,
          reindex df3 label_overlap)
  end.

(** Lines 46-58: filter one copy-number table on its NSTI column, keep the
    column as the new [nsti_val] and drop it from the table. *)
Definition nsti_filter (pred nsti_val : DataFrame) (max_nsti : value)
  : DataFrame * DataFrame :=
  if has_column NSTI pred then
    let pred := filter_le pred NSTI max_nsti in
    (drop_column pred NSTI, select_column pred NSTI)
  else (pred, nsti_val).

(** Lines 43-64: the filtered and aligned tables, with the NSTI values. *)
Definition aligned_inputs
  (study_seq_counts pred_function pred_marker : DataFrame) (max_nsti : value)
  : result (DataFrame * DataFrame * DataFrame * DataFrame) :=
  let nsti_val : DataFrame := mkFrame [] [] in
  let '(pred_function, nsti_val) :=
    nsti_filter pred_function nsti_val max_nsti in
  let '(pred_marker, nsti_val) :=
    nsti_filter pred_marker nsti_val max_nsti in
  t <- three_df_index_overlap_sort study_seq_counts pred_function pred_marker ;;
  let '(study_seq_counts, pred_function, pred_marker) := t in
  OK (study_seq_counts, pred_function, pred_marker, nsti_val).

(** What one run produces: the tables it writes on the way
    ([seqtab_norm.tsv] when asked for, [weighted_nsti.tsv] when an NSTI column
    was read) and the value it returns or the exception that ends it. *)
Record Run : Type := mkRun {
  norm_table : DataFrame;
  weighted_nsti : option DataFrame;
  returned : result (option StratFrame * DataFrame)
}.

Definition run_stages (sched : list nat)
  (study_seq_counts pred_function pred_marker : DataFrame) (max_nsti : value)
  (min_reads min_samples : Z) (strat_out : bool) (proc : Z) : result Run :=
  t <- aligned_inputs study_seq_counts pred_function pred_marker max_nsti ;;
  let '(study_seq_counts, pred_function, pred_marker, nsti_val) := t in
  study_seq_counts <- norm_by_marker_copies study_seq_counts pred_marker 2 ;;
  let weighted :=
    if negb (empty nsti_val)
    then Some (calc_weighted_nsti study_seq_counts nsti_val)
    else None in
  OK (mkRun study_seq_counts weighted
            (funcs_by_sample sched study_seq_counts pred_function strat_out
                             proc min_reads min_samples)).

Definition run_metagenome_pipeline (sched : list nat)
  (study_seq_counts pred_function pred_marker : DataFrame) (max_nsti : value)
  (min_reads min_samples : Z) (strat_out : bool) (proc : Z)
  : result (option StratFrame * DataFrame) :=
  r <- run_stages sched study_seq_counts pred_function pred_marker max_nsti
                  min_reads min_samples strat_out proc ;;
  returned r.

(** ** Deciding equality of tables

    Two rationals in canonical form are equal as soon as their fractions are;
    the boolean tests below let concrete tables be compared by evaluation. *)

Definition value_eqb (a b : value) : bool :=
  match a, b with
  | Fin x, Fin y => Qeq_bool x y
  | PInf, PInf | NInf, NInf | NaN, NaN => true
  | _, _ => false
  end.

Fixpoint list_eqb {A : Type} (eqb : A -> A -> bool) (l l' : list A) : bool :=
  match l, l' with
  | [], [] => true
  | a :: l, a' :: l' => eqb a a' && list_eqb eqb l l'
  | _, _ => false
  end.

Definition row_eqb {K : Type} `{Label K} (r r' : K * list value) : bool :=
  label_eqb (fst r) (fst r') && list_eqb value_eqb (snd r) (snd r').

Definition frame_eqb {K : Type} `{Label K} (a b : Frame K) : bool :=
  list_eqb String.eqb (columns a) (columns b) &&
  list_eqb row_eqb (rows a) (rows b).

(** No label occurs twice. *)
Fixpoint distinct {K : Type} `{Label K} (l : list K) : bool :=
  match l with
  | [] => true
  | k :: l' => negb (mem k l') && distinct l'
  end.

(** Evaluate a run that is expected to return a table. *)
Definition returns_frame {K : Type} `{Label K} (r : result (Frame K))
  (expected : Frame K) : bool :=
  match r with
  | OK t => frame_eqb t expected
  | Raise _ => false
  end.

(** Evaluate a run of the aggregator against the pair it should return. *)
Definition returns_tables (r : result (option StratFrame * DataFrame))
  (strat : option StratFrame) (unstrat : DataFrame) : bool :=
  match r with
  | OK (Some s, u) =>
      match strat with
      | Some s' => frame_eqb s s' && frame_eqb u unstrat
      | None => false
      end
  | OK (None, u) =>
      match strat with
      | Some _ => false
      | None => frame_eqb u unstrat
      end
  | Raise _ => false
  end.

(** The slots of the pool after the tasks of [done] have completed. *)
Definition slots_after {A B : Type} (f : A -> B) (tasks : list A)
  (done : list nat) (slots : list (option B)) : Prop :=
  List.length slots = List.length tasks /\
  forall j t, nth_error tasks j = Some t ->
    nth_error slots j =
    Some (if existsb (Nat.eqb j) done then Some (f t) else None).

(** ** Tables of the concrete scenarios *)

Definition int (z : Z) : value := Fin (qc z).

Definition frac (n : Z) (d : positive) : value := Fin (Q2Qc (n # d)).

(** Section 8 of the specification: two sequences, two samples, one
    function. *)
Definition ex_abundance : DataFrame :=
  mkFrame ["s1"; "s2"] [("seqA", [int 10; int 0]); ("seqB", [int 0; int 5])].


Definition ex_function : DataFrame :=
  mkFrame ["f1"] [("seqA", [int 1]); ("seqB", [int 2])].

Definition ex_normalized : DataFrame :=
  mkFrame ["s1"; "s2"] [("seqA", [int 5; int 0]); ("seqB", [int 0; int 5])].

Definition ex_unstratified : DataFrame :=
  mkFrame ["s1"; "s2"] [("f1", [int 5; int 10])].

(** The aggregator with the per-sample results taken in sample order: what
    both branches of [funcs_by_sample] come to (lemma [funcs_by_sample_eq]). *)
Definition assemble (input_seq_counts input_function_num : DataFrame)
  (strat_out : bool) (rare_seqs : list string)
  : result (option StratFrame * DataFrame) :=
  sample_funcs_df <-
    concat_axis1
      (map (fun sample =>
              func_by_seq_abun (get_column input_seq_counts sample)
                               input_function_num rare_seqs strat_out)
           (columns input_seq_counts)) ;;
  match strat_out as b
        return Frame (ix b) -> result (option StratFrame * DataFrame) with
  | true => fun df => OK (Some df, pivot_table df)
  | false => fun df => OK (None, df)
  end (set_columns (drop_zero_rows sample_funcs_df) (columns input_seq_counts)).

(** A table with a sequence that carries the reserved label. *)
Definition ex_rare_named : DataFrame :=
  mkFrame ["s1"; "s2"] [("RARE", [int 3; int 4]); ("seqB", [int 0; int 5])].

(** A sequence seen once with two marker copies (normalised count 0.5), and a
    sequence absent from every sample. *)
Definition ex_half : DataFrame :=
  mkFrame ["s1"] [("seqA", [frac 1 2])].

Definition ex_absent : DataFrame :=
  mkFrame ["s1"; "s2"] [("seqA", [int 4; int 6]); ("seqZ", [int 0; int 0])].

(** Three sequences: 3 reads in one sample, 3 reads over two samples, and
    2 reads in one sample. *)
Definition ex_reads : DataFrame :=
  mkFrame ["s1"; "s2"]
          [("seqA", [int 3; int 0]); ("seqB", [int 1; int 2]);
           ("seqC", [int 0; int 2])].

(** The rare-set property as the specification words it, for a function
    [rare] that gives the rare set of a table under the two thresholds: it is
    the union of the two failing sets, it grows with the thresholds, and it
    is empty when both thresholds are 1. *)
Definition rare_set_spec (rare : DataFrame -> Z -> Z -> list string) : Prop :=
  (forall counts min_reads min_samples q,
     In q (rare counts min_reads min_samples) <->
     In q (low_freq_seq counts min_reads) \/
     In q (few_samples_seq counts min_samples)) /\
  (forall counts min_reads min_samples min_reads' min_samples',
     min_reads <= min_reads' -> min_samples <= min_samples' ->
     incl (rare counts min_reads min_samples)
          (rare counts min_reads' min_samples')) /\
  (forall counts, rare counts 1 1 = []).

(** Section 8 of the specification: three sequences whose scores are 0.5,
    1.0 and 2.5, to be filtered at the threshold 2.0. *)
Definition ex_scored_function : DataFrame :=
  mkFrame ["f1"; NSTI]
          [("seqA", [int 1; frac 1 2]); ("seqB", [int 2; int 1]);
           ("seqC", [int 3; frac 5 2])].

Definition ex_three_abundance : DataFrame :=
  mkFrame ["s1"; "s2"]
          [("seqA", [int 10; int 0]); ("seqB", [int 0; int 5]);
           ("seqC", [int 7; int 7])].




(** Every row has one value per column. *)
Definition full_width {K : Type} (df : Frame K) : bool :=
  forallb (fun r => Nat.eqb (List.length (snd r)) (List.length (columns df)))
          (rows df).

(** No cell is infinite or [NaN]. *)
Definition finite_frame {K : Type} (df : Frame K) : bool :=
  forallb (fun r => forallb is_fin (snd r)) (rows df).

(** A table as the readers hand it over: distinct row labels, distinct column
    labels, rectangular, finite numbers. *)
Definition well_formed (df : DataFrame) : bool :=
  distinct (index (rows df)) && distinct (columns df) &&
  full_width df && finite_frame df.

(** [df.at[q, c]] with [NaN] when the row is absent. *)
Definition at_ (df : DataFrame) (q c : string) : value :=
  match cell df q c with Some v => v | None => NaN end.

(** A marker table in which the first sequence has no marker copy. *)
Definition ex_zero_marker : DataFrame :=
  mkFrame ["16S_rRNA_Count"] [("seqA", [int 0]); ("seqB", [int 1])].

Definition ex_zero_marker_normalized : DataFrame :=
  mkFrame ["s1"; "s2"] [("seqA", [PInf; NaN]); ("seqB", [int 0; int 5])].

(** Normalised abundances with a sample where nothing was seen, and the
    scores of the two sequences. *)
Definition ex_empty_sample : DataFrame :=
  mkFrame ["s1"; "s2"] [("seqA", [int 5; int 0]); ("seqB", [int 5; int 0])].

Definition ex_scores : DataFrame :=
  mkFrame [NSTI] [("seqA", [frac 1 2]); ("seqB", [int 1])].

Definition ex_weighted : DataFrame :=
  mkFrame ["weighted_NSTI"] [("s1", [frac 3 4]); ("s2", [NaN])].

(** The abundance-weighted mean score of sample [s], as the specification
    writes it: numerator and denominator. *)
Definition weighted_num (seq_counts : DataFrame) (scores : Series string)
  (s : string) : value :=
  vsum (map (fun q => vmul (at_ seq_counts q s) (get q scores))
            (index (rows seq_counts))).

Definition weighted_den (seq_counts : DataFrame) (s : string) : value :=
  vsum (map (fun q => at_ seq_counts q s) (index (rows seq_counts))).

(** The abundance of function [f] in sample [s] as the specification writes
    it: the sum over the sequences of abundance times copy number. *)
Definition predicted (counts func : DataFrame) (s f : string) : value :=
  vsum (map (fun q => vmul (at_ counts q s) (at_ func q f))
            (index (rows counts))).

(** The sum over the sequence rows of function [f] of the stratified table,
    in the column of sample [s]. *)
Definition strat_sum (strat : StratFrame) (f s : string) : value :=
  vsum (map (fun r => nth (col_pos s (columns strat)) (snd r) NaN)
            (filter (fun r => (fst (fst r) =? f)%string) (rows strat))).

(** The inputs of the aggregator as the earlier stages leave them: two
    well-formed tables over the same sequences in the same order. *)
Definition aligned (counts func : DataFrame) : bool :=
  well_formed counts && well_formed func &&
  list_eqb String.eqb (index (rows func)) (index (rows counts)).

(** The properties of a table that the aggregation relies on. *)
Definition regular (df : DataFrame) : Prop :=
  NoDup (index (rows df)) /\ full_width df = true /\ finite_frame df = true.

(** The row [df.loc[k]] as [loc_rows] reads it. *)
Definition row_of (df : DataFrame) (k : string) : list value :=
  match lookup k (rows df) with
  | Some r => r
  | None => map (fun _ => NaN) (columns df)
  end.

(** The sequence labels of the rows after the rare rows were collapsed. *)
Definition collapsed_index (labels rare_seqs : list string) : list string :=
  match rare_seqs with
  | [] => labels
  | _ :: _ => filter (fun q => negb (mem q rare_seqs)) labels ++ [RARE]
  end.

(** The table of contributions of one sample, before and after the rare rows
    are collapsed (the two steps of [func_by_seq_abun]). *)
Definition depth (counts func : DataFrame) (s : string) : DataFrame :=
  mul_axis0 func (get_column counts s).

Definition collapsed (counts func : DataFrame) (rare_seqs : list string)
  (s : string) : DataFrame :=
  collapse_rare (depth counts func s) rare_seqs.


(** The rows of the stratified table as [funcs_by_sample] assembles them: one
    row per function and (collapsed) sequence, one value per sample, rows of
    zeros dropped. *)
Definition strat_keys (func : DataFrame) (rare_seqs : list string)
  : list (string * string) :=
  flat_map (fun f => map (pair f)
                         (collapsed_index (index (rows func)) rare_seqs))
           (columns func).

Definition strat_row (counts func : DataFrame) (rare_seqs : list string)
  (k : string * string) : list value :=
  map (fun s => get k (melt (collapsed counts func rare_seqs s)))
      (columns counts).

Definition strat_table (counts func : DataFrame) (rare_seqs : list string)
  : StratFrame :=
  mkFrame (columns counts)
          (filter nonzero_row
                  (map (fun k => (k, strat_row counts func rare_seqs k))
                       (strat_keys func rare_seqs))).

(** Normalised abundances whose samples are not in alphabetical order, and
    what the aggregator returns for them with and without stratified
    output. *)
Definition ex_reversed : DataFrame :=
  mkFrame ["s2"; "s1"] [("seqA", [int 0; int 5]); ("seqB", [int 5; int 0])].


Definition ex_reversed_stratified : StratFrame :=
  mkFrame ["s2"; "s1"]
          [(("f1", "seqA"), [int 0; int 5]); (("f1", "seqB"), [int 10; int 0])].

Definition ex_reversed_pivot : DataFrame :=
  mkFrame ["s1"; "s2"] [("f1", [int 5; int 10])].

(** The order of labels that [sort_labels] establishes. *)
Definition label_le (a b : string) : Prop := String.leb a b = true.

(** [df.at[k, c]] of an output table, a pruned row reading as zero (for any
    kind of row label). *)
Definition cell_or_zero {K : Type} `{Label K} (df : Frame K) (k : K)
  (c : string) : value :=
  match cell df k c with Some v => v | None => zero end.

(** What the rare sequences contribute together to function [f] in sample
    [s]. *)
Definition rare_contribution (counts func : DataFrame)
  (rare_seqs : list string) (s f : string) : value :=
  vsum (map (fun q => vmul (at_ counts q s) (at_ func q f))
            (filter (fun q => mem q rare_seqs) (index (rows counts)))).

(** Normalised abundances with a frequent and two infrequent sequences, the
    copy numbers of one function, and the stratified table at
    [min_reads = 6]. *)
Definition ex_mixed : DataFrame :=
  mkFrame ["s1"; "s2"]
          [("seqA", [int 5; int 4]); ("seqB", [int 1; int 0]);
           ("seqC", [int 0; int 2])].

Definition ex_mixed_function : DataFrame :=
  mkFrame ["f1"] [("seqA", [int 1]); ("seqB", [int 2]); ("seqC", [int 3])].

Definition ex_mixed_stratified : StratFrame :=
  mkFrame ["s1"; "s2"]
          [(("f1", "seqA"), [int 5; int 4]); (("f1", "RARE"), [int 2; int 6])].

Definition ex_mixed_unstratified : DataFrame :=
  mkFrame ["s1"; "s2"] [("f1", [int 7; int 10])].






(** The NSTI values a run keeps (lines 44-58 of [run_metagenome_pipeline]):
    those of the marker table when it has the column, else those of the
    function table, else none. *)
Definition kept_nsti (pred_function pred_marker : DataFrame) (max_nsti : value)
  : option DataFrame :=
  if has_column NSTI pred_marker
  then Some (select_column (filter_le pred_marker NSTI max_nsti) NSTI)
  else if has_column NSTI pred_function
       then Some (select_column (filter_le pred_function NSTI max_nsti) NSTI)
       else None.

(** A marker table that carries its own NSTI column. *)
Definition ex_scored_marker : DataFrame :=
  mkFrame ["16S_rRNA_Count"; NSTI]
          [("seqA", [int 2; frac 1 4]); ("seqB", [int 1; frac 3 4]);
           ("seqC", [int 1; int 1])].

(** * Properties *)

(** ** Equality tests are sound *)

Lemma value_eqb_eq (a b : value) : value_eqb a b = true -> a = b.
Proof.
  destruct a, b; simpl; try discriminate; auto.
  intros E. f_equal. apply Qc_is_canon. now apply Qeq_bool_eq.
Qed.

Lemma list_eqb_eq {A : Type} (eqb : A -> A -> bool) (l l' : list A) :
  (forall a a', eqb a a' = true -> a = a') ->
  list_eqb eqb l l' = true -> l = l'.
Proof.
  intros Heq; revert l'; induction l as [|a l IH]; intros [|a' l'];
    simpl; try discriminate; auto.
  intros E. apply andb_true_iff in E as [E1 E2].
  f_equal; auto.
Qed.

Lemma label_eqb_eq {K : Type} `{Label K} (x y : K) :
  label_eqb x y = true <-> x = y.
Proof.
  destruct (label_eqb_spec x y); split; auto; discriminate.
Qed.

Lemma label_eqb_refl {K : Type} `{Label K} (x : K) : label_eqb x x = true.
Proof. now apply label_eqb_eq. Qed.

Lemma row_eqb_eq {K : Type} `{Label K} (r r' : K * list value) :
  row_eqb r r' = true -> r = r'.
Proof.
  destruct r as [k v], r' as [k' v']; unfold row_eqb; simpl.
  intros E. apply andb_true_iff in E as [E1 E2].
  apply label_eqb_eq in E1.
  apply (list_eqb_eq value_eqb _ _ value_eqb_eq) in E2.
  congruence.
Qed.

Lemma frame_eqb_eq {K : Type} `{Label K} (a b : Frame K) :
  frame_eqb a b = true -> a = b.
Proof.
  destruct a as [ca ra], b as [cb rb]; unfold frame_eqb; simpl.
  intros E. apply andb_true_iff in E as [E1 E2].
  f_equal.
  - apply (list_eqb_eq String.eqb); [|exact E1].
    intros x y. apply String.eqb_eq.
  - apply (list_eqb_eq row_eqb); [|exact E2].
    intros x y. apply row_eqb_eq.
Qed.

Lemma mem_In {K : Type} `{Label K} (k : K) (l : list K) :
  mem k l = true <-> In k l.
Proof.
  unfold mem. rewrite existsb_exists. split.
  - intros (x & Hx & E). apply label_eqb_eq in E. now subst.
  - intros Hk. exists k. split; [assumption | apply label_eqb_refl].
Qed.

Lemma mem_false {K : Type} `{Label K} (k : K) (l : list K) :
  mem k l = false <-> ~ In k l.
Proof.
  rewrite <- mem_In. destruct (mem k l); split; intros; congruence.
Qed.

Lemma distinct_NoDup {K : Type} `{Label K} (l : list K) :
  distinct l = true <-> NoDup l.
Proof.
  induction l as [|k l IH]; simpl.
  - split; [constructor | reflexivity].
  - rewrite andb_true_iff, negb_true_iff, mem_false, IH. split.
    + intros [? ?]. now constructor.
    + intros Hnd. inversion Hnd; subst. now split.
Qed.

Lemma returns_frame_eq {K : Type} `{Label K} (r : result (Frame K))
  (expected : Frame K) : returns_frame r expected = true -> r = OK expected.
Proof.
  destruct r as [t|e]; simpl; [|discriminate].
  intros E. f_equal. now apply frame_eqb_eq.
Qed.

Lemma returns_tables_eq (r : result (option StratFrame * DataFrame))
  (strat : option StratFrame) (unstrat : DataFrame) :
  returns_tables r strat unstrat = true -> r = OK (strat, unstrat).
Proof.
  destruct r as [[[s|] u]|e], strat as [s'|]; simpl; try discriminate.
  - intros E. apply andb_true_iff in E as [E1 E2].
    apply frame_eqb_eq in E1, E2. congruence.
  - intros E. apply frame_eqb_eq in E. congruence.
Qed.

(** ** The worker pool returns the results in submission order *)

Section Pool.
Context {A B : Type} (f : A -> B) (tasks : list A).

Lemma store_length (i : nat) (b : B) (slots : list (option B)) :
  List.length (store i b slots) = List.length slots.
Proof.
  revert i; induction slots as [|s slots IH]; intros [|i]; simpl; auto.
Qed.

Lemma store_same (i : nat) (b : B) (slots : list (option B)) :
  (i < List.length slots)%nat -> nth_error (store i b slots) i = Some (Some b).
Proof.
  revert i; induction slots as [|s slots IH]; intros [|i] Hi; simpl in *;
    try lia; auto.
  apply IH; lia.
Qed.

Lemma store_other (i j : nat) (b : B) (slots : list (option B)) :
  i <> j -> nth_error (store i b slots) j = nth_error slots j.
Proof.
  revert i j; induction slots as [|s slots IH]; intros [|i] [|j] Hij;
    simpl; auto; try congruence.
Qed.

Lemma slots_after_init : slots_after f tasks [] (map (fun _ => None) tasks).
Proof.
  split; [apply length_map|].
  intros j t Hj; simpl.
  rewrite nth_error_map, Hj; reflexivity.
Qed.

Lemma slots_after_complete (done : list nat) (slots : list (option B))
  (i : nat) :
  slots_after f tasks done slots ->
  slots_after f tasks (i :: done) (complete f tasks slots i).
Proof.
  intros [Hlen Hslots]; unfold complete.
  destruct (nth_error tasks i) as [t|] eqn:Hi.
  - split; [now rewrite store_length|].
    intros j u Hj; simpl.
    destruct (Nat.eqb_spec j i) as [->|Hne]; simpl.
    + rewrite store_same.
      * congruence.
      * rewrite Hlen. apply nth_error_Some. congruence.
    + rewrite store_other by congruence. now apply Hslots.
  - split; [exact Hlen|].
    intros j u Hj; simpl.
    destruct (Nat.eqb_spec j i) as [->|Hne]; simpl; [congruence|].
    now apply Hslots.
Qed.

Lemma slots_after_fold (order done : list nat) (slots : list (option B)) :
  slots_after f tasks done slots ->
  slots_after f tasks (rev order ++ done)
              (fold_left (complete f tasks) order slots).
Proof.
  revert done slots; induction order as [|i order IH]; intros done slots H.
  - exact H.
  - simpl. rewrite <- app_assoc. simpl.
    apply IH. now apply slots_after_complete.
Qed.

Lemma slots_after_all (done : list nat) (slots : list (option B)) :
  slots_after f tasks done slots ->
  (forall j, (j < List.length tasks)%nat -> In j done) ->
  slots = map (fun t => Some (f t)) tasks.
Proof.
  intros [Hlen Hslots] Hall.
  apply nth_error_ext; intros j.
  rewrite nth_error_map.
  destruct (nth_error tasks j) as [t|] eqn:Hj; simpl.
  - rewrite (Hslots j t Hj).
    assert (Hin : existsb (Nat.eqb j) done = true).
    { apply existsb_exists. exists j; split; [|apply Nat.eqb_refl].
      apply Hall. apply nth_error_Some. congruence. }
    now rewrite Hin.
  - apply nth_error_None. rewrite Hlen. now apply nth_error_None.
Qed.

Lemma completion_order_all (sched : list nat) (n j : nat) :
  (j < n)%nat -> In j (completion_order sched n).
Proof.
  intros Hj; unfold completion_order.
  set (first := nodup Nat.eq_dec (filter (fun i => Nat.ltb i n) sched)).
  apply in_or_app.
  destruct (existsb (Nat.eqb j) first) eqn:E.
  - left. apply existsb_exists in E as (k & Hk & Hjk).
    apply Nat.eqb_eq in Hjk. now subst k.
  - right. apply filter_In; split; [|now rewrite E].
    apply in_seq; lia.
Qed.

Lemma collect_map_Some (l : list B) : collect (map Some l) = l.
Proof.
  induction l as [|b l IH]; simpl; [reflexivity|]. now f_equal.
Qed.

Lemma Parallel_map (sched : list nat) : Parallel sched f tasks = map f tasks.
Proof.
  unfold Parallel.
  rewrite (slots_after_all
             (rev (completion_order sched (List.length tasks)) ++ [])
             (fold_left (complete f tasks)
                        (completion_order sched (List.length tasks))
                        (map (fun _ => None) tasks))).
  - rewrite <- (map_map f Some). apply collect_map_Some.
  - apply slots_after_fold, slots_after_init.
  - intros j Hj. rewrite app_nil_r. apply in_rev. rewrite rev_involutive.
    now apply completion_order_all.
Qed.

(** The sequential loop [for x in xs: acc += [f(x)]]. *)
Lemma loop_map (acc : list B) :
  fold_left (fun acc x => acc ++ [f x]) tasks acc = acc ++ map f tasks.
Proof.
  revert acc; induction tasks as [|t ts IH]; intros acc; simpl.
  - now rewrite app_nil_r.
  - rewrite IH, <- app_assoc. reflexivity.
Qed.
End Pool.

(** ** The aggregator *)

Lemma funcs_by_sample_eq (sched : list nat) (counts func : DataFrame)
  (strat_out : bool) (proc min_reads min_samples : Z) :
  funcs_by_sample sched counts func strat_out proc min_reads min_samples =
  (rare_seqs <- rare_seqs_of strat_out counts min_reads min_samples ;;
   assemble counts func strat_out rare_seqs).
Proof.
  unfold funcs_by_sample, assemble.
  destruct (rare_seqs_of strat_out counts min_reads min_samples) as [rare|e];
    simpl; [|reflexivity].
  destruct (proc >? 1).
  - now rewrite Parallel_map.
  - now rewrite loop_map.
Qed.

(** C8. For the same tables, thresholds and stratification flag, the
    aggregator run on a pool of [proc > 1] workers, whatever the order in
    which the workers complete, returns exactly what the sequential loop
    ([proc = 1]) returns. *)
Theorem parallel_equals_sequential (sched sched' : list nat)
  (counts func : DataFrame) (strat_out : bool)
  (proc min_reads min_samples : Z) :
  proc > 1 ->
  funcs_by_sample sched counts func strat_out proc min_reads min_samples =
  funcs_by_sample sched' counts func strat_out 1 min_reads min_samples.
Proof.
  intros Hproc. unfold funcs_by_sample.
  assert (Epar : (proc >? 1) = true) by (apply Z.gtb_lt; lia).
  rewrite Epar. change (1 >? 1) with false. cbv iota.
  destruct (rare_seqs_of strat_out counts min_reads min_samples) as [rare|e];
    [|reflexivity].
  cbn [bind]. now rewrite Parallel_map, loop_map.
Qed.

Lemma parallel_equals_sequential_witness :
  4 > 1 /\
  funcs_by_sample [1%nat; 0%nat] ex_abundance ex_function true 4 2 1 =
  funcs_by_sample [] ex_abundance ex_function true 1 2 1.
Proof.
  split; [lia|].
  apply (parallel_equals_sequential [1%nat; 0%nat] []); lia.
Defined.





(** ** The RARE label guard *)

Lemma id_rare_seqs_guard (counts : DataFrame) (min_reads min_samples : Z) :
  In RARE (index (rows counts)) ->
  id_rare_seqs counts min_reads min_samples = Raise (SystemExit rare_name_msg).
Proof.
  intros Hin. unfold id_rare_seqs.
  apply mem_In in Hin. now rewrite Hin.
Qed.

(** C4. When stratified output is requested with a threshold other than 1
    and the abundance table has a sequence labelled RARE, the classifier
    stops with the naming-conflict exit whatever the counts and thresholds
    are (the label test comes before any threshold test), and so do the
    aggregator and a pipeline run that reaches the aggregator with such a
    table: no table is returned. *)
Theorem rare_label_guard (sched : list nat) (counts func : DataFrame)
  (proc min_reads min_samples : Z) :
  In RARE (index (rows counts)) ->
  min_reads <> 1 \/ min_samples <> 1 ->
  id_rare_seqs counts min_reads min_samples
  = Raise (SystemExit rare_name_msg) /\
  funcs_by_sample sched counts func true proc min_reads min_samples
  = Raise (SystemExit rare_name_msg) /\
  (forall study pred_function pred_marker max_nsti r,
     run_stages sched study pred_function pred_marker max_nsti
                min_reads min_samples true proc = OK r ->
     norm_table r = counts ->
     run_metagenome_pipeline sched study pred_function pred_marker max_nsti
                             min_reads min_samples true proc
     = Raise (SystemExit rare_name_msg)).
Proof.
  intros Hin Hthr.
  assert (Hrare : rare_seqs_of true counts min_reads min_samples
                  = Raise (SystemExit rare_name_msg)).
  { unfold rare_seqs_of.
    assert (E : true && (negb (min_reads =? 1) || negb (min_samples =? 1))
                = true).
    { simpl. apply orb_true_iff.
      destruct Hthr as [H|H]; [left|right];
        apply negb_true_iff, Z.eqb_neq; exact H. }
    rewrite E. now apply id_rare_seqs_guard. }
  split; [now apply id_rare_seqs_guard|]. split.
  - rewrite funcs_by_sample_eq, Hrare. reflexivity.
  - intros study pf pm max_nsti r Hrun Hnorm.
    unfold run_metagenome_pipeline. rewrite Hrun. simpl.
    unfold run_stages in Hrun.
    destruct (aligned_inputs _ _ _ _) as [[[[c f] m] n]|e]; simpl in Hrun;
      [|discriminate].
    destruct (norm_by_marker_copies _ _ _) as [c'|e]; simpl in Hrun;
      [|discriminate].
    inversion Hrun; subst r; simpl in *. subst c'.
    rewrite funcs_by_sample_eq, Hrare. reflexivity.
Qed.

Lemma rare_label_guard_witness :
  funcs_by_sample [] ex_rare_named ex_function true 1 2 1
  = Raise (SystemExit rare_name_msg).
Proof.
  apply (rare_label_guard [] ex_rare_named ex_function 1 2 1).
  - simpl. left. reflexivity.
  - left. lia.
Defined.

(** ** The rare-sequence classifier *)

Lemma unique_In (l : list string) (x : string) : In x (unique l) <-> In x l.
Proof. apply nodup_In. Qed.

Lemma index_filter_In {K A : Type} (p : K * A -> bool) (l : list (K * A))
  (k : K) :
  In k (index (filter p l)) <-> exists a, In (k, a) l /\ p (k, a) = true.
Proof.
  unfold index. rewrite in_map_iff. split.
  - intros ([k' a] & E & Hin). simpl in E. subst k'.
    apply filter_In in Hin. now exists a.
  - intros (a & Hin & Hp). exists (k, a). split; [reflexivity|].
    now apply filter_In.
Qed.

Lemma NoDup_index_unique {K A : Type} (l : list (K * A)) (k : K) (a a' : A) :
  NoDup (index l) -> In (k, a) l -> In (k, a') l -> a = a'.
Proof.
  induction l as [|[k0 a0] l IH]; simpl; [tauto|].
  intros Hnd [E|Hin] [E'|Hin'].
  - congruence.
  - inversion E; subst. inversion Hnd; subst.
    exfalso. apply H1. apply (in_map fst) in Hin'. exact Hin'.
  - inversion E'; subst. inversion Hnd; subst.
    exfalso. apply H1. apply (in_map fst) in Hin. exact Hin.
  - inversion Hnd; subst. now apply IH.
Qed.

Lemma low_freq_seq_In (counts : DataFrame) (min_reads : Z) (q : string) :
  In q (low_freq_seq counts min_reads) <->
  exists r, In (q, r) (rows counts) /\
            vltb (sum_skipna r) (int min_reads) = true.
Proof.
  unfold low_freq_seq. rewrite unique_In. apply index_filter_In.
Qed.

Lemma few_samples_seq_In (counts : DataFrame) (min_samples : Z) (q : string) :
  In q (few_samples_seq counts min_samples) <->
  exists r, In (q, r) (rows counts) /\ samples_present r < min_samples.
Proof.
  unfold few_samples_seq. rewrite unique_In, index_filter_In.
  split; intros (r & Hin & Hlt); exists r; (split; [exact Hin|]);
    simpl in *; lia.
Qed.

Lemma vltb_Fin (x y : Qc) : vltb (Fin x) (Fin y) = true <-> (x < y)%Qc.
Proof.
  simpl. rewrite Qclt_alt. destruct (x ?= y)%Qc; split; congruence.
Qed.

Lemma qc_le (a b : Z) : a <= b -> (qc a <= qc b)%Qc.
Proof.
  intros Hab. unfold qc, Qcle, Q2Qc, this.
  rewrite !Qred_correct. rewrite <- Zle_Qle. exact Hab.
Qed.

Lemma vltb_mono (v : value) (a b : Z) :
  a <= b -> vltb v (int a) = true -> vltb v (int b) = true.
Proof.
  intros Hab. destruct v as [x| | |]; simpl; auto.
  fold (vltb (Fin x) (Fin (qc a))). fold (vltb (Fin x) (Fin (qc b))).
  rewrite !vltb_Fin. intros Hx.
  eapply Qclt_le_trans; [exact Hx|]. now apply qc_le.
Qed.



Lemma set_union_In (a b : list string) (q : string) :
  In q (set_union a b) <-> In q a \/ In q b.
Proof.
  unfold set_union. rewrite in_app_iff, filter_In, negb_true_iff, mem_false.
  split.
  - intros [Ha|[Hb _]]; auto.
  - intros [Ha|Hb]; auto.
    destruct (in_dec string_dec q a); auto.
Qed.

Lemma id_rare_seqs_In (counts : DataFrame) (min_reads min_samples : Z)
  (rare : list string) (q : string) :
  id_rare_seqs counts min_reads min_samples = OK rare ->
  (In q rare <->
   In q (low_freq_seq counts min_reads) \/
   In q (few_samples_seq counts min_samples)).
Proof.
  unfold id_rare_seqs. destruct (mem RARE _); [discriminate|].
  intros E. inversion E; subst. apply set_union_In.
Qed.

(** C7, at the thresholds 1 and 1 and at a raise of [min_reads] from 0 to 1.
    A sequence of total 0.5 fails the read threshold 1, so the union of the
    failing sets is not empty there and the classifier returns it, while the
    aggregator, which skips the classifier at these thresholds, works with
    the empty set; and with an all-zero sequence the aggregator's rare set at
    thresholds (0, 1) is lost when [min_reads] is raised to 1.  No rare set
    can be both the union and empty at (1, 1). *)
Lemma rare_set_not_empty_at_defaults :
  low_freq_seq ex_half 1 = ["seqA"] /\
  id_rare_seqs ex_half 1 1 = OK ["seqA"] /\
  rare_seqs_of true ex_half 1 1 = OK [] /\
  rare_seqs_of true ex_absent 0 1 = OK ["seqZ"] /\
  rare_seqs_of true ex_absent 1 1 = OK [] /\
  ~ (exists rare, rare_set_spec rare).
Proof.
  repeat split; try (vm_compute; reflexivity).
  intros (rare & Hunion & _ & Hempty).
  specialize (Hunion ex_half 1 1 "seqA"). rewrite Hempty in Hunion.
  apply Hunion. left. vm_compute. left. reflexivity.
Qed.

(** C7, amended.  The set returned by the classifier is the union of the
    low-frequency set and the few-samples set; raising either threshold never
    removes a sequence from what the classifier returns (and the classifier
    still returns); and with both thresholds at 1 the aggregator does not run
    the classifier and works with the empty rare set. *)
Theorem rare_set_union_monotone (counts : DataFrame)
  (min_reads min_samples min_reads' min_samples' : Z) (rare : list string) :
  id_rare_seqs counts min_reads min_samples = OK rare ->
  min_reads <= min_reads' ->
  min_samples <= min_samples' ->
  (forall q, In q rare <->
             In q (low_freq_seq counts min_reads) \/
             In q (few_samples_seq counts min_samples)) /\
  (exists rare', id_rare_seqs counts min_reads' min_samples' = OK rare' /\
                 incl rare rare') /\
  (forall strat_out, rare_seqs_of strat_out counts 1 1 = OK []).
Proof.
  intros Hrare Hr Hs. split; [|split].
  - intros q. now apply id_rare_seqs_In.
  - unfold id_rare_seqs in *. destruct (mem RARE _); [discriminate|].
    inversion Hrare; subst rare. eexists. split; [reflexivity|].
    intros q. rewrite !set_union_In, !low_freq_seq_In, !few_samples_seq_In.
    intros [(r & Hin & Hlt)|(r & Hin & Hlt)]; [left|right]; exists r;
      (split; [exact Hin|]).
    + now apply (vltb_mono _ min_reads).
    + lia.
  - intros strat_out. unfold rare_seqs_of. simpl.
    now rewrite andb_false_r.
Qed.

Lemma rare_set_union_monotone_witness :
  exists rare', id_rare_seqs ex_reads 4 2 = OK rare' /\ incl ["seqC"] rare'.
Proof.
  apply (rare_set_union_monotone ex_reads 3 1 4 2 ["seqC"]).
  - vm_compute. reflexivity.
  - lia.
  - lia.
Defined.

(** ** Lookups *)

Lemma lookup_Some_In {K A : Type} `{Label K} (k : K) (l : list (K * A))
  (a : A) :
  lookup k l = Some a -> In (k, a) l.
Proof.
  induction l as [|[k' a'] l IH]; simpl; [discriminate|].
  destruct (label_eqb_spec k k') as [->|Hne].
  - intros E. inversion E. now left.
  - intros E. right. now apply IH.
Qed.

Lemma lookup_In {K A : Type} `{Label K} (k : K) (l : list (K * A)) (a : A) :
  NoDup (index l) -> In (k, a) l -> lookup k l = Some a.
Proof.
  induction l as [|[k' a'] l IH]; simpl; [tauto|].
  intros Hnd Hin. inversion Hnd as [|? ? Hk' Hnd']; subst.
  destruct (label_eqb_spec k k') as [->|Hne].
  - destruct Hin as [E|Hin]; [congruence|].
    exfalso. apply Hk'. apply (in_map fst) in Hin. exact Hin.
  - destruct Hin as [E|Hin]; [congruence|]. now apply IH.
Qed.

Lemma lookup_None {K A : Type} `{Label K} (k : K) (l : list (K * A)) :
  lookup k l = None <-> ~ In k (index l).
Proof.
  induction l as [|[k' a'] l IH]; simpl; [tauto|].
  destruct (label_eqb_spec k k') as [->|Hne].
  - split; [discriminate|]. intros Hn. exfalso. apply Hn. now left.
  - rewrite IH. split.
    + intros Hn [E|Hin]; [congruence|tauto].
    + intros Hn Hin. apply Hn. now right.
Qed.

Lemma lookup_index {K A : Type} `{Label K} (k : K) (l : list (K * A)) :
  In k (index l) -> exists a, lookup k l = Some a.
Proof.
  intros Hin. destruct (lookup k l) as [a|] eqn:E.
  - now exists a.
  - apply lookup_None in E. contradiction.
Qed.

(** ** The confidence filter *)







(** ** Finite values and sums *)

Lemma sum_skipna_finite (l : list value) :
  forallb is_fin l = true -> sum_skipna l = vsum l.
Proof.
  intros Hl. unfold sum_skipna. f_equal.
  induction l as [|v l IH]; simpl in *; [reflexivity|].
  apply andb_true_iff in Hl as [Hv Hl].
  destruct v; try discriminate. simpl. now rewrite IH.
Qed.

Lemma vadd_fin (a b : value) :
  is_fin a = true -> is_fin b = true -> is_fin (vadd a b) = true.
Proof. destruct a, b; simpl; congruence. Qed.

Lemma vmul_fin (a b : value) :
  is_fin a = true -> is_fin b = true -> is_fin (vmul a b) = true.
Proof. destruct a, b; simpl; congruence. Qed.

Lemma vsum_fin (l : list value) :
  forallb is_fin l = true -> is_fin (vsum l) = true.
Proof.
  induction l as [|v l IH]; simpl; [reflexivity|].
  intros Hl. apply andb_true_iff in Hl as [Hv Hl].
  apply vadd_fin; auto.
Qed.

Lemma forallb_map {A B : Type} (p : B -> bool) (g : A -> B) (l : list A) :
  forallb p (map g l) = forallb (fun a => p (g a)) l.
Proof.
  induction l as [|a l IH]; simpl; [reflexivity|]. now rewrite IH.
Qed.

Lemma vdiv_zero_not_fin (v : value) : is_fin (vdiv v zero) = false.
Proof.
  destruct v as [x| | |]; simpl; try reflexivity.
  destruct (Qc_eq_dec (qc 0) (qc 0)) as [_|Hne]; [|congruence].
  destruct (x ?= qc 0)%Qc; reflexivity.
Qed.

Lemma round_not_fin (d : Z) (v : value) :
  is_fin v = false -> round_decimals d v = v.
Proof. destruct v; simpl; congruence. Qed.

(** ** Cells of frames *)

Lemma col_pos_lt (c : string) (cols : list string) :
  In c cols -> (col_pos c cols < List.length cols)%nat.
Proof.
  induction cols as [|c' cols IH]; simpl; [tauto|].
  intros Hin. destruct (String.eqb_spec c c') as [->|Hne]; [lia|].
  destruct Hin as [E|Hin]; [congruence|]. apply IH in Hin. lia.
Qed.

Lemma nth_col_pos_map {A : Type} (g : string -> A) (cols : list string)
  (c : string) (d : A) :
  In c cols -> nth (col_pos c cols) (map g cols) d = g c.
Proof.
  induction cols as [|c' cols IH]; simpl; [tauto|].
  intros Hin. destruct (String.eqb_spec c c') as [->|Hne]; [reflexivity|].
  destruct Hin as [E|Hin]; [congruence|]. now apply IH.
Qed.

Lemma lookup_map_label {K A : Type} `{Label K} (g : K -> A) (l : list K)
  (k : K) :
  In k l -> lookup k (map (fun x => (x, g x)) l) = Some (g k).
Proof.
  induction l as [|x l IH]; simpl; [tauto|].
  intros Hin. destruct (label_eqb_spec k x) as [->|Hne]; [reflexivity|].
  destruct Hin as [E|Hin]; [congruence|]. now apply IH.
Qed.

Lemma get_sum_axis0 {K : Type} (df : Frame K) (c : string) :
  In c (columns df) ->
  get c (sum_axis0 df) = sum_skipna (map snd (get_column df c)).
Proof.
  intros Hin. unfold get, sum_axis0.
  now rewrite (lookup_map_label
                 (fun c => sum_skipna (map snd (get_column df c)))).
Qed.

Lemma nth_fin (r : list value) (j : nat) :
  forallb is_fin r = true -> (j < List.length r)%nat ->
  is_fin (nth j r NaN) = true.
Proof.
  intros Hr Hj. rewrite forallb_forall in Hr. apply Hr. now apply nth_In.
Qed.

Lemma row_cell_fin {K : Type} (df : Frame K) (r : K * list value) (c : string) :
  full_width df = true -> finite_frame df = true ->
  In r (rows df) -> In c (columns df) ->
  is_fin (nth (col_pos c (columns df)) (snd r) NaN) = true.
Proof.
  unfold full_width, finite_frame. rewrite !forallb_forall.
  intros Hw Hf Hr Hc. apply nth_fin; [now apply Hf|].
  specialize (Hw r Hr). apply Nat.eqb_eq in Hw. rewrite Hw.
  now apply col_pos_lt.
Qed.

Lemma map_index_rows {A : Type} (df : DataFrame) (c : string)
  (g : string -> value -> A) :
  NoDup (index (rows df)) ->
  map (fun q => g q (at_ df q c)) (index (rows df)) =
  map (fun r => g (fst r) (nth (col_pos c (columns df)) (snd r) NaN)) (rows df).
Proof.
  intros Hnd. unfold index. rewrite map_map. apply map_ext_in.
  intros [q r] Hin. unfold at_, cell. simpl.
  now rewrite (lookup_In q (rows df) r Hnd Hin).
Qed.

Lemma nth_map_vmul (j : nat) (l : list value) (a : value) :
  nth j (map (fun v => vmul v a) l) NaN = vmul (nth j l NaN) a.
Proof.
  transitivity (nth j (map (fun v => vmul v a) l) (vmul NaN a)).
  - f_equal.
  - apply (map_nth (fun v => vmul v a)).
Qed.

(** ** Normalisation by marker copies *)

Lemma loc_column_OK (df : DataFrame) (labels : list string) (c : string) :
  (forall k, In k labels -> In k (index (rows df))) ->
  loc_column df labels c = OK (map (fun k => (k, at_ df k c)) labels).
Proof.
  induction labels as [|k labels IH]; simpl; [reflexivity|].
  intros Hall. unfold at_ at 1. unfold cell.
  destruct (lookup_index k (rows df)) as [r Hr]; [apply Hall; now left|].
  rewrite Hr, IH by (intros; apply Hall; now right). reflexivity.
Qed.

Lemma norm_by_marker_copies_OK (counts marker : DataFrame) (d : Z)
  (c : string) (cs : list string) :
  columns marker = c :: cs ->
  (forall k, In k (index (rows counts)) -> In k (index (rows marker))) ->
  norm_by_marker_copies counts marker d =
  OK (mkFrame (columns counts)
        (map (fun r => (fst r,
                        map (fun v => round_decimals d
                                        (vdiv v (at_ marker (fst r) c)))
                            (snd r)))
             (rows counts))).
Proof.
  intros Hc Hal. unfold norm_by_marker_copies. rewrite Hc. simpl.
  rewrite (loc_column_OK marker _ c Hal). simpl.
  unfold round_frame, div_axis0. simpl. do 2 f_equal.
  rewrite map_map. apply map_ext_in. intros [q r] Hin. simpl. f_equal.
  rewrite map_map. apply map_ext. intros v. unfold get.
  rewrite (lookup_map_label (fun k => at_ marker k c)); [reflexivity|].
  apply (in_map fst) in Hin. exact Hin.
Qed.

(** C3, on the scenario of the specification with the marker copy number of
    the first sequence set to zero: normalisation raises nothing and returns
    a table whose first row is [inf] and [NaN]. *)
Lemma zero_marker_not_rejected :
  norm_by_marker_copies ex_abundance ex_zero_marker 2
  = OK ex_zero_marker_normalized /\
  lookup "seqA" (rows ex_zero_marker_normalized) = Some [PInf; NaN].
Proof.
  split; [|reflexivity].
  apply returns_frame_eq. vm_compute. reflexivity.
Qed.

(** C3, amended.  When the marker table covers the sequences of the abundance
    table and gives a sequence the marker copy number zero, normalisation
    raises no error: it returns a table in which every value of that
    sequence's row is the float quotient by zero, which is never finite
    ([inf] or [-inf] for a non-zero count, [NaN] for a zero count). *)
Theorem zero_marker_gives_non_finite_row (counts marker : DataFrame) (d : Z)
  (c : string) (cs : list string) (q : string) (r : list value) :
  distinct (index (rows counts)) = true ->
  columns marker = c :: cs ->
  forallb (fun k => mem k (index (rows marker))) (index (rows counts)) = true ->
  In (q, r) (rows counts) ->
  cell marker q c = Some zero ->
  exists out,
    norm_by_marker_copies counts marker d = OK out /\
    lookup q (rows out) = Some (map (fun v => vdiv v zero) r) /\
    (forall v, In v (map (fun v => vdiv v zero) r) -> is_fin v = false) /\
    (forall x, vdiv (Fin x) zero = inf_of_sign (x ?= qc 0)%Qc).
Proof.
  intros Hd Hc Hal Hin Hzero. apply distinct_NoDup in Hd.
  rewrite forallb_forall in Hal.
  rewrite (norm_by_marker_copies_OK counts marker d c cs Hc)
    by (intros k Hk; apply mem_In; now apply Hal).
  eexists. split; [reflexivity|]. simpl. split; [|split].
  - apply lookup_In.
    + unfold index. rewrite map_map. exact Hd.
    + apply in_map_iff. exists (q, r). split; [|exact Hin]. simpl.
      f_equal. apply map_ext. intros v.
      unfold at_. rewrite Hzero.
      apply round_not_fin, vdiv_zero_not_fin.
  - intros v Hv. apply in_map_iff in Hv as (v' & <- & _).
    apply vdiv_zero_not_fin.
  - intros x. simpl.
    destruct (Qc_eq_dec (qc 0) (qc 0)); [reflexivity|congruence].
Qed.

Lemma zero_marker_gives_non_finite_row_witness :
  exists out,
    norm_by_marker_copies ex_abundance ex_zero_marker 2 = OK out /\
    lookup "seqA" (rows out)
    = Some (map (fun v => vdiv v zero) [int 10; int 0]) /\
    (forall v, In v (map (fun v => vdiv v zero) [int 10; int 0]) ->
               is_fin v = false) /\
    (forall x, vdiv (Fin x) zero = inf_of_sign (x ?= qc 0)%Qc).
Proof.
  apply (zero_marker_gives_non_finite_row ex_abundance ex_zero_marker 2
           "16S_rRNA_Count" [] "seqA" [int 10; int 0]).
  - reflexivity.
  - reflexivity.
  - reflexivity.
  - simpl. left. reflexivity.
  - reflexivity.
Defined.

(** ** The weighted NSTI *)

Lemma well_formed_parts (df : DataFrame) :
  well_formed df = true ->
  NoDup (index (rows df)) /\ NoDup (columns df) /\
  full_width df = true /\ finite_frame df = true.
Proof.
  unfold well_formed. rewrite !andb_true_iff.
  intros [[[H1 H2] H3] H4]. apply distinct_NoDup in H1, H2. auto.
Qed.

Lemma column_sum (df : DataFrame) (c : string) :
  well_formed df = true -> In c (columns df) ->
  sum_skipna (map snd (get_column df c)) =
  vsum (map (fun q => at_ df q c) (index (rows df))) /\
  is_fin (vsum (map (fun q => at_ df q c) (index (rows df)))) = true.
Proof.
  intros Hwf Hc. destruct (well_formed_parts df Hwf) as (Hnd & _ & Hw & Hf).
  rewrite (map_index_rows df c (fun _ v => v) Hnd).
  unfold get_column. rewrite map_map. simpl.
  assert (Hfin : forallb is_fin
                   (map (fun r => nth (col_pos c (columns df)) (snd r) NaN)
                        (rows df)) = true).
  { rewrite forallb_map. apply forallb_forall. intros r Hr.
    now apply row_cell_fin. }
  split; [now apply sum_skipna_finite | now apply vsum_fin].
Qed.

Lemma weighted_column_sum (df : DataFrame) (scores : Series string)
  (c : string) :
  well_formed df = true ->
  forallb (fun q => is_fin (get q scores)) (index (rows df)) = true ->
  In c (columns df) ->
  sum_skipna (map snd (get_column (mul_axis0 df scores) c)) =
  weighted_num df scores c /\
  is_fin (weighted_num df scores c) = true.
Proof.
  intros Hwf Hs Hc. destruct (well_formed_parts df Hwf) as (Hnd & _ & Hw & Hf).
  unfold weighted_num.
  rewrite (map_index_rows df c (fun q v => vmul v (get q scores)) Hnd).
  unfold get_column, mul_axis0. simpl. rewrite !map_map. simpl.
  assert (E : map (fun r : string * list value =>
                     nth (col_pos c (columns df))
                         (map (fun v => vmul v (get (fst r) scores)) (snd r))
                         NaN) (rows df)
              = map (fun r => vmul (nth (col_pos c (columns df)) (snd r) NaN)
                                   (get (fst r) scores)) (rows df)).
  { apply map_ext. intros r. apply nth_map_vmul. }
  rewrite E.
  assert (Hfin : forallb is_fin
            (map (fun r => vmul (nth (col_pos c (columns df)) (snd r) NaN)
                                (get (fst r) scores)) (rows df)) = true).
  { rewrite forallb_map. apply forallb_forall. intros r Hr.
    apply vmul_fin; [now apply row_cell_fin|].
    rewrite forallb_forall in Hs. apply Hs.
    apply (in_map fst) in Hr. exact Hr. }
  split; [now apply sum_skipna_finite | now apply vsum_fin].
Qed.

(** C6, on normalised abundances with a sample where nothing was seen: the
    reporter returns a table, and the value of that sample is [NaN]. *)
Lemma zero_total_sample_gets_nan :
  calc_weighted_nsti ex_empty_sample ex_scores = ex_weighted /\
  cell ex_weighted "s2" "weighted_NSTI" = Some NaN.
Proof.
  split; [|reflexivity].
  apply frame_eqb_eq. vm_compute. reflexivity.
Qed.

(** C6, amended.  For a finite abundance table and finite scores, the
    reporter gives every sample the float quotient of the sum of abundance
    times score by the sum of abundance.  When the total abundance of the
    sample is not zero this is the quotient of the two rationals; when it is
    zero no error is raised and the value is not finite ([NaN] when the
    numerator is zero as well). *)
Theorem weighted_nsti_value (seq_counts nsti_input : DataFrame) (s : string) :
  well_formed seq_counts = true ->
  forallb (fun q => is_fin (get q (get_column nsti_input NSTI)))
          (index (rows seq_counts)) = true ->
  In s (columns seq_counts) ->
  exists num den : Qc,
    weighted_num seq_counts (get_column nsti_input NSTI) s = Fin num /\
    weighted_den seq_counts s = Fin den /\
    cell (calc_weighted_nsti seq_counts nsti_input) s "weighted_NSTI"
    = Some (vdiv (Fin num) (Fin den)) /\
    (den <> qc 0 -> vdiv (Fin num) (Fin den) = Fin (num / den)%Qc) /\
    (den = qc 0 -> is_fin (vdiv (Fin num) (Fin den)) = false) /\
    (den = qc 0 -> num = qc 0 -> vdiv (Fin num) (Fin den) = NaN).
Proof.
  intros Hwf Hs Hc.
  destruct (weighted_column_sum seq_counts _ s Hwf Hs Hc) as [En Hn].
  destruct (column_sum seq_counts s Hwf Hc) as [Ed Hd].
  fold (weighted_den seq_counts s) in Ed, Hd.
  destruct (weighted_num seq_counts (get_column nsti_input NSTI) s)
    as [num| | |] eqn:Enum; try discriminate.
  destruct (weighted_den seq_counts s) as [den| | |] eqn:Eden;
    try discriminate.
  exists num, den. repeat split.
  - unfold cell, calc_weighted_nsti. simpl.
    rewrite (lookup_map_label
               (fun s => [vdiv (get s (sum_axis0 (mul_axis0 seq_counts
                                          (get_column nsti_input NSTI))))
                               (get s (sum_axis0 seq_counts))])
               (columns seq_counts) s Hc).
    simpl. rewrite !get_sum_axis0 by exact Hc.
    now rewrite En, Ed.
  - intros Hne. simpl. destruct (Qc_eq_dec den (qc 0)); [contradiction|].
    reflexivity.
  - intros ->. apply (vdiv_zero_not_fin (Fin num)).
  - intros -> ->. simpl.
    destruct (Qc_eq_dec (qc 0) (qc 0)); [reflexivity|congruence].
Qed.

Lemma weighted_nsti_value_witness :
  exists num den : Qc,
    weighted_num ex_empty_sample (get_column ex_scores NSTI) "s1" = Fin num /\
    weighted_den ex_empty_sample "s1" = Fin den /\
    cell (calc_weighted_nsti ex_empty_sample ex_scores) "s1" "weighted_NSTI"
    = Some (vdiv (Fin num) (Fin den)) /\
    (den <> qc 0 -> vdiv (Fin num) (Fin den) = Fin (num / den)%Qc) /\
    (den = qc 0 -> is_fin (vdiv (Fin num) (Fin den)) = false) /\
    (den = qc 0 -> num = qc 0 -> vdiv (Fin num) (Fin den) = NaN).
Proof.
  apply (weighted_nsti_value ex_empty_sample ex_scores "s1").
  - reflexivity.
  - reflexivity.
  - simpl. left. reflexivity.
Defined.

(** ** Algebra of cell values *)

Lemma vadd_comm (a b : value) : vadd a b = vadd b a.
Proof. destruct a, b; simpl; try reflexivity. f_equal. ring. Qed.

Lemma vadd_assoc (a b c : value) : vadd a (vadd b c) = vadd (vadd a b) c.
Proof. destruct a, b, c; simpl; try reflexivity. f_equal. ring. Qed.

Lemma vadd_zero_l (a : value) : vadd zero a = a.
Proof.
  destruct a; simpl; try reflexivity. f_equal.
  change (qc 0) with (Q2Qc 0). ring.
Qed.

Lemma vadd_zero_r (a : value) : vadd a zero = a.
Proof. rewrite vadd_comm. apply vadd_zero_l. Qed.

Lemma vmul_comm (a b : value) : vmul a b = vmul b a.
Proof. destruct a, b; simpl; try reflexivity. f_equal. ring. Qed.

Lemma veqb_zero (v : value) : veqb v zero = true -> v = zero.
Proof.
  destruct v as [x| | |]; simpl; try discriminate.
  destruct (x ?= qc 0)%Qc eqn:E; try discriminate.
  intros _. apply Qceq_alt in E. now subst.
Qed.

Lemma vsum_app (l l' : list value) :
  vsum (l ++ l') = vadd (vsum l) (vsum l').
Proof.
  induction l as [|v l IH]; simpl.
  - symmetry. apply vadd_zero_l.
  - now rewrite IH, vadd_assoc.
Qed.

Lemma vsum_Permutation (l l' : list value) :
  Permutation l l' -> vsum l = vsum l'.
Proof.
  induction 1; simpl.
  - reflexivity.
  - now f_equal.
  - rewrite !vadd_assoc. f_equal. apply vadd_comm.
  - congruence.
Qed.

Lemma vsum_filter_split {A : Type} (g : A -> value) (p : A -> bool)
  (l : list A) :
  vsum (map g l) =
  vadd (vsum (map g (filter (fun a => negb (p a)) l)))
       (vsum (map g (filter p l))).
Proof.
  induction l as [|a l IH]; simpl.
  - exact (eq_sym (vadd_zero_l zero)).
  - rewrite IH. destruct (p a); simpl.
    + rewrite (vadd_comm (vsum _) (vadd _ _)), <- !vadd_assoc. f_equal.
      apply vadd_comm.
    + now rewrite vadd_assoc.
Qed.


(** ** Lists of labelled entries *)

Lemma filter_true {A : Type} (p : A -> bool) (l : list A) :
  (forall a, In a l -> p a = true) -> filter p l = l.
Proof.
  induction l as [|a l IH]; simpl; [reflexivity|].
  intros Hp. rewrite (Hp a) by auto. f_equal. apply IH. auto.
Qed.



Lemma lookup_app {K A : Type} `{Label K} (k : K) (l l' : list (K * A)) :
  lookup k (l ++ l') =
  match lookup k l with Some a => Some a | None => lookup k l' end.
Proof.
  induction l as [|[k' a'] l IH]; simpl; [reflexivity|].
  destruct (label_eqb k k'); [reflexivity|apply IH].
Qed.

Lemma lookup_filter_map_None {K A : Type} `{Label K} (p : K * A -> bool)
  (g : K -> A) (l : list K) (k : K) :
  p (k, g k) = false ->
  lookup k (filter p (map (fun x => (x, g x)) l)) = None.
Proof.
  intros Hp. induction l as [|x l IH]; simpl; [reflexivity|].
  destruct (p (x, g x)) eqn:E; [|exact IH]. simpl.
  destruct (label_eqb_spec k x) as [->|Hne]; [congruence|exact IH].
Qed.

Lemma lookup_filter_map {K A : Type} `{Label K} (p : K * A -> bool)
  (g : K -> A) (l : list K) (k : K) :
  In k l ->
  lookup k (filter p (map (fun x => (x, g x)) l)) =
  if p (k, g k) then Some (g k) else None.
Proof.
  destruct (p (k, g k)) eqn:Hp; [|intros _; now apply lookup_filter_map_None].
  induction l as [|x l IH]; simpl; [tauto|].
  intros Hin. destruct (label_eqb_spec k x) as [->|Hne].
  - rewrite Hp. simpl. now rewrite label_eqb_refl.
  - destruct Hin as [E|Hin]; [congruence|].
    destruct (p (x, g x)); simpl.
    + destruct (label_eqb_spec k x); [congruence|]. now apply IH.
    + now apply IH.
Qed.

Lemma get_get_column (df : DataFrame) (q c : string) :
  get q (get_column df c) = at_ df q c.
Proof.
  unfold get, at_, cell, get_column.
  induction (rows df) as [|[q' r] l IH]; simpl; [reflexivity|].
  destruct (q =? q')%string; [reflexivity|exact IH].
Qed.

Lemma at_fin (df : DataFrame) (q c : string) :
  well_formed df = true -> In q (index (rows df)) -> In c (columns df) ->
  is_fin (at_ df q c) = true.
Proof.
  intros Hwf Hq Hc. destruct (well_formed_parts df Hwf) as (Hnd & _ & Hw & Hf).
  unfold at_, cell. destruct (lookup_index q (rows df) Hq) as [r Hr].
  rewrite Hr. apply lookup_Some_In in Hr.
  now apply (row_cell_fin df (q, r) c).
Qed.

(** ** The rare set handed to the workers *)

Lemma set_union_NoDup (a b : list string) :
  NoDup a -> NoDup b -> NoDup (set_union a b).
Proof.
  intros Ha Hb. unfold set_union. apply NoDup_app.
  - exact Ha.
  - now apply NoDup_filter.
  - intros q Hq Hq'. apply filter_In in Hq' as [_ Hq'].
    apply negb_true_iff, mem_false in Hq'. contradiction.
Qed.

Lemma rare_seqs_of_facts (strat_out : bool) (counts : DataFrame)
  (min_reads min_samples : Z) (rare : list string) :
  rare_seqs_of strat_out counts min_reads min_samples = OK rare ->
  NoDup rare /\ incl rare (index (rows counts)) /\
  (rare <> [] -> ~ In RARE (index (rows counts))).
Proof.
  unfold rare_seqs_of.
  destruct (strat_out && _).
  - unfold id_rare_seqs. destruct (mem RARE _) eqn:Hm; [discriminate|].
    intros E. inversion E; subst rare; clear E. split; [|split].
    + apply set_union_NoDup; apply NoDup_nodup.
    + intros q Hq. apply set_union_In in Hq as [Hq|Hq].
      * apply low_freq_seq_In in Hq as (r & Hin & _).
        apply (in_map fst) in Hin. exact Hin.
      * apply few_samples_seq_In in Hq as (r & Hin & _).
        apply (in_map fst) in Hin. exact Hin.
    + intros _. now apply mem_false.
  - intros E. inversion E; subst rare. split; [constructor|].
    split; [intros q []|congruence].
Qed.

(** ** Collapsing the rare rows *)

Lemma set_row_in_absent {K : Type} `{Label K} (k : K) (r : list value)
  (l : list (K * list value)) :
  ~ In k (index l) -> set_row_in k r l = l ++ [(k, r)].
Proof.
  induction l as [|[k' r'] l IH]; simpl; [reflexivity|].
  intros Hn. destruct (label_eqb_spec k k') as [->|Hne].
  - exfalso. apply Hn. now left.
  - f_equal. apply IH. intros Hin. apply Hn. now right.
Qed.

Lemma index_filter_label {K A : Type} (p : K -> bool) (l : list (K * A)) :
  index (filter (fun r => p (fst r)) l) = filter p (index l).
Proof.
  induction l as [|[k a] l IH]; simpl; [reflexivity|].
  destruct (p k); simpl; now rewrite IH.
Qed.

Lemma collapse_rare_rows (df : DataFrame) (rare : list string) :
  rare <> [] -> ~ In RARE (index (rows df)) ->
  rows (collapse_rare df rare) =
  filter (fun r => negb (mem (fst r) rare)) (rows df) ++
  [(RARE, map (fun c => get c (sum_axis0 (loc_rows df rare))) (columns df))].
Proof.
  intros Hne Hn. destruct rare as [|q rare]; [congruence|].
  unfold collapse_rare, set_row, drop_rows. simpl rows. simpl columns.
  apply set_row_in_absent.
  rewrite (index_filter_label (fun k => negb (mem k (q :: rare)))).
  intros Hin. apply filter_In in Hin as [Hin _]. contradiction.
Qed.

Lemma collapse_rare_columns (df : DataFrame) (rare : list string) :
  columns (collapse_rare df rare) = columns df.
Proof. destruct rare; reflexivity. Qed.

Lemma collapse_rare_index (df : DataFrame) (rare : list string) :
  (rare <> [] -> ~ In RARE (index (rows df))) ->
  index (rows (collapse_rare df rare)) = collapsed_index (index (rows df)) rare.
Proof.
  intros Hn. destruct rare as [|q rs]; [reflexivity|].
  rewrite collapse_rare_rows by (try apply Hn; congruence).
  unfold collapsed_index, index at 1. rewrite map_app. f_equal.
  apply (index_filter_label (fun k => negb (mem k (q :: rs)))).
Qed.

Lemma row_of_In (df : DataFrame) (k : string) :
  In k (index (rows df)) -> In (k, row_of df k) (rows df).
Proof.
  intros Hin. unfold row_of.
  destruct (lookup_index k (rows df) Hin) as [r Hr]. rewrite Hr.
  now apply lookup_Some_In.
Qed.

Lemma loc_rows_Permutation (df : DataFrame) (rare : list string) :
  NoDup (index (rows df)) -> NoDup rare -> incl rare (index (rows df)) ->
  Permutation (rows (loc_rows df rare))
              (filter (fun r => mem (fst r) rare) (rows df)).
Proof.
  intros Hnd Hr Hincl. apply NoDup_Permutation.
  - apply (NoDup_map_inv fst). unfold loc_rows. simpl.
    rewrite map_map. simpl. now rewrite map_id.
  - apply NoDup_filter. now apply (NoDup_map_inv fst).
  - intros [k r]. unfold loc_rows. simpl. rewrite in_map_iff, filter_In.
    fold (row_of df). split.
    + intros (k' & E & Hk). inversion E; subst. split.
      * apply row_of_In. now apply Hincl.
      * simpl. now apply mem_In.
    + intros [Hin Hm]. simpl in Hm. apply mem_In in Hm.
      exists k. split; [|exact Hm]. f_equal.
      unfold row_of. now rewrite (lookup_In k (rows df) r Hnd Hin).
Qed.

Lemma regular_cell_fin (df : DataFrame) (r : string * list value) (c : string) :
  regular df -> In r (rows df) -> In c (columns df) ->
  is_fin (nth (col_pos c (columns df)) (snd r) NaN) = true.
Proof. intros (_ & Hw & Hf). now apply row_cell_fin. Qed.

(** The RARE row holds, column by column, the sum of the rare rows. *)
Lemma rare_subset_sum (df : DataFrame) (rare : list string) (c : string) :
  regular df -> NoDup rare -> incl rare (index (rows df)) ->
  In c (columns df) ->
  get c (sum_axis0 (loc_rows df rare)) =
  vsum (map (fun r => nth (col_pos c (columns df)) (snd r) NaN)
            (filter (fun r => mem (fst r) rare) (rows df))).
Proof.
  intros Hreg Hr Hincl Hc. pose proof Hreg as (Hnd & Hw & Hf).
  rewrite (get_sum_axis0 (loc_rows df rare) c Hc).
  unfold get_column. rewrite map_map. simpl snd. simpl columns.
  rewrite sum_skipna_finite.
  - rewrite <- (map_map snd (fun r => nth (col_pos c (columns df)) r NaN)).
    rewrite <- (map_map snd (fun r => nth (col_pos c (columns df)) r NaN)
                        (filter _ _)).
    apply vsum_Permutation, Permutation_map, Permutation_map.
    now apply loc_rows_Permutation.
  - rewrite forallb_map. apply forallb_forall. intros r Hin.
    apply (regular_cell_fin df r c Hreg); [|exact Hc].
    apply (Permutation_in _ (loc_rows_Permutation df rare Hnd Hr Hincl)) in Hin.
    apply filter_In in Hin. tauto.
Qed.

Lemma collapse_rare_col_sum (df : DataFrame) (rare : list string) (c : string) :
  regular df -> NoDup rare -> incl rare (index (rows df)) ->
  (rare <> [] -> ~ In RARE (index (rows df))) ->
  In c (columns df) ->
  vsum (map (fun r => nth (col_pos c (columns df)) (snd r) NaN)
            (rows (collapse_rare df rare))) =
  vsum (map (fun r => nth (col_pos c (columns df)) (snd r) NaN) (rows df)).
Proof.
  intros Hreg Hr Hincl Hn Hc.
  destruct (list_eq_dec string_dec rare []) as [->|Hne]; [reflexivity|].
  rewrite collapse_rare_rows by auto.
  rewrite map_app, vsum_app. simpl map. simpl vsum at 2.
  rewrite vadd_zero_r.
  rewrite (nth_col_pos_map
             (fun c => get c (sum_axis0 (loc_rows df rare)))) by exact Hc.
  rewrite rare_subset_sum by assumption.
  symmetry.
  apply (vsum_filter_split
           (fun r => nth (col_pos c (columns df)) (snd r) NaN)
           (fun r => mem (fst r) rare)).
Qed.

Lemma forallb_filter_sub {A : Type} (p q : A -> bool) (l : list A) :
  forallb p l = true -> forallb p (filter q l) = true.
Proof.
  rewrite !forallb_forall. intros Hp a Ha.
  apply filter_In in Ha as [Ha _]. now apply Hp.
Qed.

Lemma collapse_rare_regular (df : DataFrame) (rare : list string) :
  regular df -> NoDup rare -> incl rare (index (rows df)) ->
  (rare <> [] -> ~ In RARE (index (rows df))) ->
  regular (collapse_rare df rare).
Proof.
  intros Hreg Hr Hincl Hn. pose proof Hreg as (Hnd & Hw & Hf).
  destruct (list_eq_dec string_dec rare []) as [->|Hne]; [exact Hreg|].
  specialize (Hn Hne). split; [|split].
  - rewrite collapse_rare_index by auto. unfold collapsed_index.
    destruct rare as [|q rs]; [congruence|].
    apply NoDup_app.
    + now apply NoDup_filter.
    + constructor; [intros []|constructor].
    + intros a Ha [<-|[]]. apply filter_In in Ha as [Ha _]. contradiction.
  - unfold full_width.
    rewrite collapse_rare_columns, collapse_rare_rows by auto.
    rewrite forallb_app. apply andb_true_iff. split.
    + now apply forallb_filter_sub.
    + simpl. rewrite length_map, Nat.eqb_refl. reflexivity.
  - unfold finite_frame. rewrite collapse_rare_rows by auto.
    rewrite forallb_app. apply andb_true_iff. split.
    + now apply forallb_filter_sub.
    + simpl. rewrite andb_true_r, forallb_map. apply forallb_forall.
      intros c Hc. rewrite rare_subset_sum by assumption.
      apply vsum_fin. rewrite forallb_map. apply forallb_forall.
      intros r Hin. apply filter_In in Hin as [Hin _].
      now apply (regular_cell_fin df r c).
Qed.

(** ** The contributions of one sample *)

Section Aggregation.
Variables counts func : DataFrame.
Variable rare : list string.
Hypothesis Hcounts : well_formed counts = true.
Hypothesis Hfunc : well_formed func = true.
Hypothesis Hindex : index (rows func) = index (rows counts).
Hypothesis Hrare : NoDup rare.
Hypothesis Hincl : incl rare (index (rows func)).
Hypothesis Hlabel : rare <> [] -> ~ In RARE (index (rows func)).

Lemma depth_index (s : string) :
  index (rows (depth counts func s)) = index (rows func).
Proof. unfold depth, mul_axis0, index. simpl. now rewrite map_map. Qed.

Lemma depth_regular (s : string) :
  In s (columns counts) -> regular (depth counts func s).
Proof.
  intros Hs. destruct (well_formed_parts func Hfunc) as (Hnd & _ & Hw & Hf).
  split; [|split].
  - now rewrite depth_index.
  - unfold full_width, depth, mul_axis0 in *. simpl.
    rewrite forallb_map. simpl. rewrite forallb_forall in *.
    intros r Hr. rewrite length_map. now apply Hw.
  - unfold finite_frame, depth, mul_axis0 in *. simpl.
    rewrite forallb_map. simpl. rewrite forallb_forall in *.
    intros r Hr. rewrite forallb_map. apply forallb_forall. intros v Hv.
    apply vmul_fin.
    + specialize (Hf r Hr). rewrite forallb_forall in Hf. now apply Hf.
    + rewrite get_get_column. apply at_fin; [assumption| |assumption].
      rewrite <- Hindex. apply (in_map fst) in Hr. exact Hr.
Qed.

Lemma depth_col_sum (s f : string) :
  vsum (map (fun r => nth (col_pos f (columns func)) (snd r) NaN)
            (rows (depth counts func s)))
  = predicted counts func s f.
Proof.
  destruct (well_formed_parts func Hfunc) as (Hnd & _).
  unfold predicted. rewrite <- Hindex.
  rewrite (map_index_rows func f (fun q v => vmul (at_ counts q s) v) Hnd).
  unfold depth, mul_axis0. simpl. rewrite map_map. simpl. f_equal.
  apply map_ext. intros r.
  now rewrite nth_map_vmul, get_get_column, vmul_comm.
Qed.

Lemma collapsed_regular (s : string) :
  In s (columns counts) -> regular (collapsed counts func rare s).
Proof.
  intros Hs. apply collapse_rare_regular; rewrite ?depth_index; auto.
  now apply depth_regular.
Qed.

Lemma collapsed_columns (s : string) :
  columns (collapsed counts func rare s) = columns func.
Proof. unfold collapsed. now rewrite collapse_rare_columns. Qed.

Lemma collapsed_index_eq (s : string) :
  index (rows (collapsed counts func rare s))
  = collapsed_index (index (rows func)) rare.
Proof.
  unfold collapsed. rewrite collapse_rare_index; rewrite depth_index; auto.
Qed.

Lemma collapsed_col_sum (s f : string) :
  In s (columns counts) -> In f (columns func) ->
  vsum (map (fun r => nth (col_pos f (columns func)) (snd r) NaN)
            (rows (collapsed counts func rare s)))
  = predicted counts func s f.
Proof.
  intros Hs Hf. rewrite <- depth_col_sum. unfold collapsed.
  apply (collapse_rare_col_sum (depth counts func s) rare f);
    rewrite ?depth_index; auto.
  now apply depth_regular.
Qed.

(** The unstratified result of one sample holds the specified sums. *)
Lemma unstrat_task_get (s f : string) :
  In s (columns counts) -> In f (columns func) ->
  get f (func_by_seq_abun (get_column counts s) func rare false)
  = predicted counts func s f.
Proof.
  intros Hs Hf. unfold func_by_seq_abun.
  fold (depth counts func s). fold (collapsed counts func rare s).
  rewrite get_sum_axis0 by (now rewrite collapsed_columns).
  unfold get_column. rewrite map_map. simpl snd.
  rewrite collapsed_columns.
  rewrite sum_skipna_finite; [now apply collapsed_col_sum|].
  rewrite forallb_map. apply forallb_forall. intros r Hr.
  rewrite <- (collapsed_columns s).
  apply (regular_cell_fin _ r f (collapsed_regular s Hs) Hr).
  now rewrite collapsed_columns.
Qed.

Lemma unstrat_task_index (s : string) :
  index (func_by_seq_abun (get_column counts s) func rare false)
  = columns func.
Proof.
  unfold func_by_seq_abun.
  fold (depth counts func s). fold (collapsed counts func rare s).
  unfold sum_axis0, index. rewrite map_map. simpl.
  rewrite map_id. apply collapsed_columns.
Qed.
End Aggregation.

(** ** Assembling the per-sample results *)

Lemma aligned_parts (counts func : DataFrame) :
  aligned counts func = true ->
  well_formed counts = true /\ well_formed func = true /\
  index (rows func) = index (rows counts).
Proof.
  unfold aligned. rewrite !andb_true_iff. intros [[H1 H2] H3].
  repeat split; auto.
  apply (list_eqb_eq String.eqb); [|exact H3].
  intros x y. apply String.eqb_eq.
Qed.

(** Reading a cell of a table whose zero rows were dropped, with zero for a
    dropped row, is reading the cell before the rows were dropped. *)
Lemma pruned_cell {K : Type} `{Label K} (keys : list K) (R : K -> list value)
  (k : K) (j : nat) :
  In k keys -> (j < List.length (R k))%nat ->
  match lookup k (filter nonzero_row (map (fun k => (k, R k)) keys)) with
  | Some r => nth j r NaN
  | None => zero
  end = nth j (R k) NaN.
Proof.
  intros Hk Hj. rewrite (lookup_filter_map nonzero_row R keys k Hk).
  destruct (nonzero_row (k, R k)) eqn:E; [reflexivity|].
  unfold nonzero_row in E. apply negb_false_iff in E. simpl in E.
  rewrite forallb_forall in E. symmetry. apply veqb_zero, E.
  now apply nth_In.
Qed.


Lemma concat_axis1_map {K : Type} `{Label K} (task : string -> Series K)
  (samples : list string) (df : Frame K) :
  concat_axis1 (map task samples) = OK df ->
  exists s0, In s0 samples /\
    rows df = map (fun k => (k, map (fun s => get k (task s)) samples))
                  (index (task s0)).
Proof.
  destruct samples as [|s0 ss]; simpl; [discriminate|].
  intros E. inversion E; subst df; clear E. exists s0. split; [now left|].
  simpl. apply map_ext. intros k. now rewrite map_map.
Qed.


(** ** The long form of the stratified result *)

Lemma melt_index (df : DataFrame) :
  index (melt df) =
  flat_map (fun f => map (pair f) (index (rows df))) (columns df).
Proof.
  unfold melt, index.
  induction (columns df) as [|f cols IH]; simpl; [reflexivity|].
  rewrite map_app, IH. f_equal. unfold get_column. now rewrite !map_map.
Qed.

Lemma lookup_block (f f' q : string) (col : Series string) :
  lookup (f, q) (map (fun e => ((f', fst e), snd e)) col) =
  if (f =? f')%string then lookup q col else None.
Proof.
  induction col as [|[q' v] col IH]; simpl.
  - now destruct (f =? f')%string.
  - unfold pair_eqb. simpl. destruct (f =? f')%string; simpl; [|exact IH].
    destruct (q =? q')%string; [reflexivity|exact IH].
Qed.

Lemma lookup_get_column_None (df : DataFrame) (q c c' : string) :
  lookup q (get_column df c) = None -> lookup q (get_column df c') = None.
Proof.
  rewrite !lookup_None. unfold get_column, index. now rewrite !map_map.
Qed.

Lemma lookup_melt (df : DataFrame) (f q : string) :
  In f (columns df) ->
  lookup (f, q) (melt df) = lookup q (get_column df f).
Proof.
  unfold melt. induction (columns df) as [|f' cols IH]; simpl; [tauto|].
  intros Hin. rewrite lookup_app, lookup_block.
  destruct (String.eqb_spec f f') as [<-|Hne].
  - destruct (lookup q (get_column df f)) eqn:E; [reflexivity|].
    clear IH Hin. induction cols as [|c cols IH]; simpl; [reflexivity|].
    rewrite lookup_app, lookup_block.
    destruct (f =? c)%string; [|exact IH].
    now rewrite (lookup_get_column_None df q f c E).
  - destruct Hin as [E|Hin]; [congruence|]. now apply IH.
Qed.

Lemma get_melt (df : DataFrame) (f q : string) :
  In f (columns df) -> get (f, q) (melt df) = at_ df q f.
Proof.
  intros Hf. unfold get. rewrite lookup_melt by exact Hf.
  apply get_get_column.
Qed.

Lemma at_regular_fin (df : DataFrame) (q c : string) :
  regular df -> In q (index (rows df)) -> In c (columns df) ->
  is_fin (at_ df q c) = true.
Proof.
  intros Hreg Hq Hc. unfold at_, cell.
  destruct (lookup_index q (rows df) Hq) as [r Hr].
  rewrite Hr. apply lookup_Some_In in Hr.
  now apply (regular_cell_fin df (q, r) c).
Qed.




(** ** The pivot that sums the stratified rows by function *)

Lemma insert_sorted_In (x y : string) (l : list string) :
  In x (insert_sorted y l) <-> x = y \/ In x l.
Proof.
  induction l as [|z l IH]; simpl; [intuition congruence|].
  destruct (String.leb y z); simpl; [intuition congruence|].
  rewrite IH. intuition congruence.
Qed.

Lemma sort_labels_In (x : string) (l : list string) :
  In x (sort_labels l) <-> In x l.
Proof.
  induction l as [|y l IH]; simpl; [tauto|].
  rewrite insert_sorted_In, IH. intuition congruence.
Qed.

Lemma group_sum_fin (df : StratFrame) (f c : string) :
  full_width df = true -> finite_frame df = true -> In c (columns df) ->
  group_sum df f c = strat_sum df f c /\ is_fin (group_sum df f c) = true.
Proof.
  intros Hw Hf Hc. unfold group_sum, strat_sum, get_column.
  rewrite map_map. simpl.
  assert (Hfin : forallb is_fin
            (map (fun r : string * string * list value =>
                    nth (col_pos c (columns df)) (snd r) NaN)
                 (filter (fun r => (fst (fst r) =? f)%string) (rows df)))
            = true).
  { rewrite forallb_map. apply forallb_forall. intros r Hr.
    apply filter_In in Hr as [Hr _]. now apply row_cell_fin. }
  rewrite sum_skipna_finite by exact Hfin.
  split; [reflexivity|now apply vsum_fin].
Qed.

Lemma is_fin_not_nan (v : value) : is_fin v = true -> negb (is_nan v) = true.
Proof. destruct v; simpl; congruence. Qed.


(** ** The stratified table *)

Section Stratified.
Variables counts func : DataFrame.
Variable rare : list string.
Hypothesis Hcounts : well_formed counts = true.
Hypothesis Hfunc : well_formed func = true.
Hypothesis Hindex : index (rows func) = index (rows counts).
Hypothesis Hrare : NoDup rare.
Hypothesis Hincl : incl rare (index (rows func)).
Hypothesis Hlabel : rare <> [] -> ~ In RARE (index (rows func)).

Lemma strat_keys_In (f q : string) :
  In (f, q) (strat_keys func rare) ->
  In f (columns func) /\ In q (collapsed_index (index (rows func)) rare).
Proof.
  unfold strat_keys. rewrite in_flat_map. intros (f' & Hf & Hq).
  apply in_map_iff in Hq as (q' & E & Hq). inversion E; subst. auto.
Qed.

Lemma strat_value (s f q : string) :
  In f (columns func) ->
  get (f, q) (melt (collapsed counts func rare s))
  = at_ (collapsed counts func rare s) q f.
Proof.
  intros Hf. apply get_melt. now rewrite collapsed_columns.
Qed.

Lemma strat_value_fin (s f q : string) :
  In s (columns counts) -> In (f, q) (strat_keys func rare) ->
  is_fin (get (f, q) (melt (collapsed counts func rare s))) = true.
Proof.
  intros Hs Hk. apply strat_keys_In in Hk as [Hf Hq].
  rewrite strat_value by exact Hf. apply at_regular_fin.
  - now apply collapsed_regular.
  - now rewrite collapsed_index_eq.
  - now rewrite collapsed_columns.
Qed.

Lemma strat_table_regular :
  full_width (strat_table counts func rare) = true /\
  finite_frame (strat_table counts func rare) = true.
Proof.
  unfold full_width, finite_frame, strat_table. cbn [rows columns]. split.
  - apply forallb_filter_sub. rewrite forallb_map. apply forallb_forall.
    intros k _. simpl. unfold strat_row. rewrite length_map.
    apply Nat.eqb_refl.
  - apply forallb_filter_sub. rewrite forallb_map. apply forallb_forall.
    intros [f q] Hk. simpl. unfold strat_row. rewrite forallb_map.
    apply forallb_forall. intros s Hs. now apply strat_value_fin.
Qed.

End Stratified.

Lemma funcs_by_sample_strat_shape (sched : list nat) (counts func : DataFrame)
  (proc min_reads min_samples : Z) (st : option StratFrame) (u : DataFrame) :
  aligned counts func = true ->
  funcs_by_sample sched counts func true proc min_reads min_samples
  = OK (st, u) ->
  exists rare,
    rare_seqs_of true counts min_reads min_samples = OK rare /\
    st = Some (strat_table counts func rare) /\
    u = pivot_table (strat_table counts func rare).
Proof.
  intros Hal Hrun.
  destruct (aligned_parts counts func Hal) as (Hc & Hf & Hidx).
  rewrite funcs_by_sample_eq in Hrun.
  destruct (rare_seqs_of true counts min_reads min_samples) as [rare|e] eqn:Er;
    simpl in Hrun; [|discriminate].
  destruct (rare_seqs_of_facts _ _ _ _ _ Er) as (Hnd & Hincl & Hlabel).
  rewrite <- Hidx in Hincl, Hlabel.
  exists rare. split; [reflexivity|].
  unfold assemble in Hrun.
  destruct (concat_axis1 _) as [df|e] eqn:Ecat; cbn [bind] in Hrun;
    [|discriminate].
  apply (concat_axis1_map
           (fun s => func_by_seq_abun (get_column counts s) func rare true))
    in Ecat as (s0 & Hs0 & Erows).
  assert (Edf : set_columns (drop_zero_rows df) (columns counts)
                = strat_table counts func rare).
  { unfold set_columns, drop_zero_rows, strat_table. cbn [rows columns].
    f_equal. rewrite Erows.
    change (func_by_seq_abun (get_column counts s0) func rare true)
      with (melt (collapsed counts func rare s0)).
    rewrite melt_index, collapsed_columns.
    rewrite collapsed_index_eq by assumption.
    reflexivity. }
  rewrite Edf in Hrun. inversion Hrun. auto.
Qed.





(** ** The per-sample results share one index *)

Lemma set_row_in_index {K : Type} `{Label K} (k : K) (r : list value)
  (l : list (K * list value)) :
  index (set_row_in k r l) =
  if mem k (index l) then index l else index l ++ [k].
Proof.
  induction l as [|[k' r'] l IH]; simpl; [reflexivity|].
  destruct (label_eqb_spec k k') as [->|Hne]; simpl; [reflexivity|].
  rewrite IH. fold (mem k (index l)). now destruct (mem k (index l)).
Qed.

Lemma collapse_rare_index_indep (df df' : DataFrame) (rare : list string) :
  index (rows df) = index (rows df') ->
  index (rows (collapse_rare df rare)) = index (rows (collapse_rare df' rare)).
Proof.
  intros E. destruct rare as [|q rs]; [exact E|].
  unfold collapse_rare, set_row, drop_rows. cbn [rows columns].
  rewrite !set_row_in_index.
  rewrite !(index_filter_label (fun k => negb (mem k (q :: rs)))).
  now rewrite E.
Qed.

(** Whatever the sample, the result of [func_by_seq_abun] has the same row
    labels: the outer join taken by [pd.concat] is the index of any one of
    the per-sample results. *)
Lemma func_by_seq_abun_index (col col' : Series string) (func : DataFrame)
  (rare : list string) (calc_strat : bool) :
  index (func_by_seq_abun col func rare calc_strat) =
  index (func_by_seq_abun col' func rare calc_strat).
Proof.
  assert (E : index (rows (collapse_rare (mul_axis0 func col) rare)) =
              index (rows (collapse_rare (mul_axis0 func col') rare))).
  { apply collapse_rare_index_indep. unfold mul_axis0, index. simpl.
    now rewrite !map_map. }
  unfold func_by_seq_abun. destruct calc_strat.
  - rewrite !melt_index, !collapse_rare_columns. simpl. now rewrite E.
  - unfold sum_axis0, index. rewrite !map_map. simpl.
    now rewrite !collapse_rare_columns.
Qed.

(** ** The sequences of the stratified table *)



(** ** The confidence filter, end to end *)



(** * Further properties of the pipeline *)

(** ** When the aggregator fails, and what it returns *)


Lemma assemble_no_samples (counts func : DataFrame) (strat_out : bool)
  (rare : list string) :
  columns counts = [] ->
  assemble counts func strat_out rare
  = Raise (ValueError "No objects to concatenate").
Proof. intros E. unfold assemble. rewrite E. reflexivity. Qed.



Lemma filter_map_label_gen {K A : Type} (p : K * A -> bool) (g : K -> A)
  (l : list K) :
  filter p (map (fun k => (k, g k)) l) =
  map (fun k => (k, g k)) (filter (fun k => p (k, g k)) l).
Proof.
  induction l as [|k l IH]; simpl; [reflexivity|].
  destruct (p (k, g k)); simpl; now rewrite IH.
Qed.

Lemma negb_forallb {A : Type} (p : A -> bool) (l : list A) :
  negb (forallb p l) = existsb (fun a => negb (p a)) l.
Proof.
  induction l as [|a l IH]; simpl; [reflexivity|].
  rewrite negb_andb, IH. reflexivity.
Qed.

Lemma funcs_by_sample_unstrat_rows (sched : list nat) (counts func : DataFrame)
  (proc min_reads min_samples : Z) (st : option StratFrame) (u : DataFrame) :
  funcs_by_sample sched counts func false proc min_reads min_samples
  = OK (st, u) ->
  st = None /\
  u = mkFrame (columns counts)
        (filter nonzero_row
           (map (fun f =>
                   (f, map (fun s => get f (func_by_seq_abun
                                              (get_column counts s) func []
                                              false))
                           (columns counts)))
                (columns func))).
Proof.
  intros Hrun. rewrite funcs_by_sample_eq in Hrun. simpl in Hrun.
  unfold assemble in Hrun.
  destruct (concat_axis1 _) as [df|e] eqn:Ecat; cbn [bind] in Hrun;
    [|discriminate].
  inversion Hrun; subst st u; clear Hrun. split; [reflexivity|].
  apply (concat_axis1_map
           (fun s => func_by_seq_abun (get_column counts s) func [] false))
    in Ecat as (s0 & Hs0 & Erows).
  rewrite unstrat_task_index in Erows.
  cbv beta iota delta [ix ix_Label] in df, Erows.
  unfold set_columns, drop_zero_rows. cbn [rows columns]. now rewrite Erows.
Qed.

(** X2. Without stratified output, the table returned by the aggregator has
    the sample identifiers of the abundance table as its columns, in their
    order; its rows are functions of the copy-number table, in the order of
    that table's columns; every row has one value per sample, and no row is
    zero throughout. *)
Theorem unstratified_table_shape (sched : list nat) (counts func : DataFrame)
  (proc min_reads min_samples : Z) (st : option StratFrame) (u : DataFrame) :
  funcs_by_sample sched counts func false proc min_reads min_samples
  = OK (st, u) ->
  columns u = columns counts /\
  (exists keep, index (rows u) = filter keep (columns func)) /\
  full_width u = true /\
  (forall r, In r (rows u) -> nonzero_row r = true).
Proof.
  intros Hrun.
  destruct (funcs_by_sample_unstrat_rows _ _ _ _ _ _ _ _ Hrun) as [_ ->].
  cbn [rows columns]. split; [reflexivity|]. split; [|split].
  - eexists.
    rewrite (filter_map_label_gen nonzero_row).
    unfold index. rewrite map_map. cbn [fst]. now rewrite map_id.
  - unfold full_width. cbn [rows columns]. apply forallb_filter_sub.
    rewrite forallb_map. apply forallb_forall. intros f _. cbn [snd].
    rewrite length_map. apply Nat.eqb_refl.
  - intros r Hr. apply filter_In in Hr. tauto.
Qed.

Lemma unstratified_table_shape_witness :
  columns ex_unstratified = columns ex_normalized /\
  (exists keep, index (rows ex_unstratified)
                = filter keep (columns ex_function)) /\
  full_width ex_unstratified = true /\
  (forall r, In r (rows ex_unstratified) -> nonzero_row r = true).
Proof.
  apply (unstratified_table_shape [] ex_normalized ex_function 1 1 1 None).
  apply returns_tables_eq. vm_compute. reflexivity.
Defined.

Lemma veqb_zero_iff (v : value) : veqb v zero = true <-> v = zero.
Proof.
  split; [apply veqb_zero|]. intros ->. reflexivity.
Qed.

(** X3. Zero-row pruning, exactly: without stratified output and on aligned
    tables, a function of the copy-number table has a row in the returned
    table if and only if its specified abundance is not zero in at least one
    sample. *)
Theorem function_row_iff_nonzero (sched : list nat) (counts func : DataFrame)
  (proc min_reads min_samples : Z) (st : option StratFrame) (u : DataFrame)
  (f : string) :
  aligned counts func = true ->
  funcs_by_sample sched counts func false proc min_reads min_samples
  = OK (st, u) ->
  In f (columns func) ->
  (In f (index (rows u)) <->
   exists s, In s (columns counts) /\ predicted counts func s f <> zero).
Proof.
  intros Hal Hrun Hf.
  destruct (aligned_parts counts func Hal) as (Hc & Hfw & Hidx).
  destruct (funcs_by_sample_unstrat_rows _ _ _ _ _ _ _ _ Hrun) as [_ ->].
  cbn [rows]. rewrite (filter_map_label_gen nonzero_row).
  unfold index. rewrite map_map. cbn [fst]. rewrite map_id, filter_In.
  unfold nonzero_row. cbn [snd]. rewrite negb_forallb, existsb_exists.
  assert (Hval : forall s, In s (columns counts) ->
            get f (func_by_seq_abun (get_column counts s) func [] false)
            = predicted counts func s f).
  { intros s Hs. apply unstrat_task_get; auto.
    - constructor.
    - intros q []. }
  split.
  - intros (_ & v & Hv & Hnz). apply in_map_iff in Hv as (s & <- & Hs).
    exists s. split; [exact Hs|]. rewrite <- (Hval s Hs).
    intros E. apply veqb_zero_iff in E. apply negb_true_iff in Hnz.
    cbv beta iota delta [ix ix_Label] in Hnz, E. congruence.
  - intros (s & Hs & Hne). split; [exact Hf|].
    exists (predicted counts func s f). split.
    + apply in_map_iff. exists s. split; [now apply Hval|exact Hs].
    + apply negb_true_iff.
      destruct (veqb (predicted counts func s f) zero) eqn:E; [|reflexivity].
      apply veqb_zero in E. contradiction.
Qed.

Lemma function_row_iff_nonzero_witness :
  aligned ex_normalized ex_function = true /\
  (In "f1" (index (rows ex_unstratified)) <->
   exists s, In s (columns ex_normalized) /\
             predicted ex_normalized ex_function s "f1" <> zero).
Proof.
  split; [reflexivity|].
  apply (function_row_iff_nonzero [] ex_normalized ex_function 1 1 1 None).
  - reflexivity.
  - apply returns_tables_eq. vm_compute. reflexivity.
  - simpl. left. reflexivity.
Defined.




(** ** The order of rows and columns after the pivot *)

Lemma insert_sorted_HdRel (x y : string) (l : list string) :
  label_le y x -> HdRel label_le y l -> HdRel label_le y (insert_sorted x l).
Proof.
  intros Hyx Hl. destruct l as [|z l]; simpl.
  - now constructor.
  - inversion Hl; subst. destruct (String.leb x z); now constructor.
Qed.

Lemma insert_sorted_Sorted (x : string) (l : list string) :
  Sorted label_le l -> Sorted label_le (insert_sorted x l).
Proof.
  induction l as [|y l IH]; simpl; intros Hs.
  - repeat constructor.
  - destruct (String.leb x y) eqn:E.
    + constructor; [exact Hs|]. now constructor.
    + inversion Hs; subst. constructor; [now apply IH|].
      apply insert_sorted_HdRel; [|assumption].
      destruct (String.leb_total x y) as [H|H]; [congruence|exact H].
Qed.

Lemma sort_labels_Sorted (l : list string) : Sorted label_le (sort_labels l).
Proof.
  induction l as [|x l IH]; simpl; [constructor|].
  now apply insert_sorted_Sorted.
Qed.

Lemma insert_sorted_Permutation (x : string) (l : list string) :
  Permutation (insert_sorted x l) (x :: l).
Proof.
  induction l as [|y l IH]; simpl; [reflexivity|].
  destruct (String.leb x y); [reflexivity|].
  rewrite IH. apply perm_swap.
Qed.

Lemma sort_labels_Permutation (l : list string) :
  Permutation (sort_labels l) l.
Proof.
  induction l as [|x l IH]; simpl; [reflexivity|].
  rewrite insert_sorted_Permutation. now constructor.
Qed.

Lemma pivot_table_finite (df : StratFrame) :
  full_width df = true -> finite_frame df = true ->
  columns df <> [] -> rows df <> [] ->
  pivot_table df =
  mkFrame (sort_labels (columns df))
    (map (fun f => (f, map (group_sum df f) (sort_labels (columns df))))
         (sort_labels (unique (map (fun r => fst (fst r)) (rows df))))).
Proof.
  intros Hw Hf Hcols Hrows.
  assert (Hg : forall f c, In c (columns df) ->
                 negb (is_nan (group_sum df f c)) = true).
  { intros f c Hc. apply is_fin_not_nan. now apply group_sum_fin. }
  unfold pivot_table.
  set (groups := sort_labels (unique (map (fun r => fst (fst r)) (rows df)))).
  assert (Eag : match columns df with
                | [] => groups
                | _ :: _ =>
                    filter (fun f => existsb (fun c => negb (is_nan
                                                (group_sum df f c)))
                                             (columns df)) groups
                end = groups).
  { destruct (columns df) as [|c0 cols] eqn:Ec; [reflexivity|].
    apply filter_true. intros f _. apply existsb_exists.
    exists c0. split; [now left|]. apply Hg. now left. }
  rewrite Eag.
  assert (Ecols : filter (fun c => existsb (fun f => negb (is_nan
                                       (group_sum df f c))) groups)
                         (sort_labels (columns df))
                  = sort_labels (columns df)).
  { apply filter_true. intros c Hc. rewrite sort_labels_In in Hc.
    destruct (rows df) as [|r0 rs] eqn:Er; [congruence|].
    apply existsb_exists. exists (fst (fst r0)). split; [|now apply Hg].
    unfold groups. apply sort_labels_In, unique_In. now left. }
  now rewrite Ecols.
Qed.

(** X7. With stratified output on aligned tables, and at least one row in
    the stratified table, the unstratified table comes out of the pivot with
    its sample columns and its function rows sorted by label: the columns are
    the sample identifiers of the abundance table rearranged in ascending
    order (not in the order of the abundance table), and the rows are the
    functions that have a row in the stratified table, each once, in
    ascending order. *)
Theorem pivot_sorts_samples_and_functions (sched : list nat)
  (counts func : DataFrame) (proc min_reads min_samples : Z)
  (strat : StratFrame) (u : DataFrame) :
  aligned counts func = true ->
  funcs_by_sample sched counts func true proc min_reads min_samples
  = OK (Some strat, u) ->
  rows strat <> [] ->
  columns u = sort_labels (columns counts) /\
  Permutation (columns u) (columns counts) /\
  Sorted label_le (columns u) /\
  Sorted label_le (index (rows u)) /\
  NoDup (index (rows u)) /\
  (forall f, In f (index (rows u)) <->
             exists q r, In ((f, q), r) (rows strat)).
Proof.
  intros Hal Hrun Hrows.
  destruct (aligned_parts counts func Hal) as (Hc & Hfw & Hidx).
  destruct (funcs_by_sample_strat_shape _ _ _ _ _ _ _ _ Hal Hrun)
    as (rare & Er & Est & Eu).
  destruct (rare_seqs_of_facts _ _ _ _ _ Er) as (Hnd & Hincl & Hlabel).
  rewrite <- Hidx in Hincl, Hlabel.
  inversion Est; subst strat.
  destruct (strat_table_regular counts func rare Hc Hfw Hidx Hnd Hincl Hlabel)
    as [Hw Hfin].
  assert (Hsamples : columns counts <> []).
  { intros E. rewrite funcs_by_sample_eq, Er in Hrun. cbn [bind] in Hrun.
    rewrite assemble_no_samples in Hrun by exact E. discriminate. }
  rewrite (pivot_table_finite _ Hw Hfin Hsamples Hrows) in Eu. subst u.
  cbn [rows columns]. unfold index. rewrite map_map. cbn [fst].
  rewrite map_id. repeat split.
  - apply sort_labels_Permutation.
  - apply sort_labels_Sorted.
  - apply sort_labels_Sorted.
  - apply (Permutation_NoDup (Permutation_sym (sort_labels_Permutation _))).
    apply NoDup_nodup.
  - intros Hin. rewrite sort_labels_In, unique_In, in_map_iff in Hin.
    destruct Hin as ([[f' q] r] & E & Hin). simpl in E. subst f'.
    now exists q, r.
  - intros (q & r & Hin). apply sort_labels_In, unique_In.
    apply (in_map (fun r => fst (fst r))) in Hin. exact Hin.
Qed.

Lemma pivot_sorts_samples_and_functions_witness :
  columns ex_reversed_pivot = sort_labels (columns ex_reversed) /\
  Permutation (columns ex_reversed_pivot) (columns ex_reversed) /\
  Sorted label_le (columns ex_reversed_pivot) /\
  Sorted label_le (index (rows ex_reversed_pivot)) /\
  NoDup (index (rows ex_reversed_pivot)) /\
  (forall f, In f (index (rows ex_reversed_pivot)) <->
             exists q r, In ((f, q), r) (rows ex_reversed_stratified)).
Proof.
  apply (pivot_sorts_samples_and_functions [] ex_reversed ex_function 1 1 1).
  - reflexivity.
  - apply returns_tables_eq. vm_compute. reflexivity.
  - discriminate.
Defined.

(** ** The cells of the stratified table *)

Lemma lookup_filter_label {K A : Type} `{Label K} (p : K -> bool)
  (l : list (K * A)) (k : K) :
  lookup k (filter (fun r => p (fst r)) l) =
  if p k then lookup k l else None.
Proof.
  induction l as [|[k' a] l IH]; simpl; [now destruct (p k)|].
  destruct (p k') eqn:Ep'; simpl.
  - destruct (label_eqb_spec k k') as [->|Hne]; [now rewrite Ep'|exact IH].
  - destruct (label_eqb_spec k k') as [->|Hne]; [|exact IH].
    rewrite Ep' in *. exact IH.
Qed.

Lemma lookup_map_rows {K A B : Type} `{Label K} (g : K -> A -> B)
  (l : list (K * A)) (k : K) :
  lookup k (map (fun r => (fst r, g (fst r) (snd r))) l) =
  option_map (g k) (lookup k l).
Proof.
  induction l as [|[k' a] l IH]; simpl; [reflexivity|].
  destruct (label_eqb_spec k k') as [->|Hne]; [reflexivity|exact IH].
Qed.

Lemma at_depth (counts func : DataFrame) (s q f : string) :
  at_ (depth counts func s) q f = vmul (at_ counts q s) (at_ func q f).
Proof.
  unfold at_ at 1 3. unfold cell, depth, mul_axis0. cbn [rows columns].
  rewrite (lookup_map_rows
             (fun k r =>
                map (fun v => vmul v (get k (get_column counts s))) r)).
  destruct (lookup q (rows func)) as [r|]; simpl.
  - now rewrite nth_map_vmul, get_get_column, vmul_comm.
  - now destruct (at_ counts q s).
Qed.

Lemma at_collapsed_kept (df : DataFrame) (rare : list string) (q c : string) :
  (rare <> [] -> ~ In RARE (index (rows df))) ->
  In q (index (rows df)) -> ~ In q rare ->
  at_ (collapse_rare df rare) q c = at_ df q c.
Proof.
  intros Hlabel Hq Hnr.
  destruct (list_eq_dec string_dec rare []) as [->|Hne]; [reflexivity|].
  unfold at_, cell. rewrite collapse_rare_columns, collapse_rare_rows by auto.
  rewrite lookup_app.
  rewrite (lookup_filter_label (fun k => negb (mem k rare))).
  apply mem_false in Hnr. rewrite Hnr. simpl.
  destruct (lookup_index q (rows df) Hq) as [r Hr]. now rewrite Hr.
Qed.

Lemma at_collapsed_rare (df : DataFrame) (rare : list string) (c : string) :
  rare <> [] -> ~ In RARE (index (rows df)) -> In c (columns df) ->
  at_ (collapse_rare df rare) RARE c = get c (sum_axis0 (loc_rows df rare)).
Proof.
  intros Hne Hlabel Hc.
  unfold at_, cell. rewrite collapse_rare_columns, collapse_rare_rows by auto.
  rewrite lookup_app.
  rewrite (lookup_filter_label (fun k => negb (mem k rare))).
  apply lookup_None in Hlabel. rewrite Hlabel.
  assert (E : (if negb (mem RARE rare) then @None (list value) else None)
              = None) by now destruct (negb (mem RARE rare)).
  rewrite E. simpl.
  now rewrite (nth_col_pos_map (fun c => get c (sum_axis0 (loc_rows df rare)))).
Qed.

Lemma map_index_rows_filter {A : Type} (df : DataFrame) (c : string)
  (g : string -> value -> A) (p : string -> bool) :
  NoDup (index (rows df)) ->
  map (fun q => g q (at_ df q c)) (filter p (index (rows df))) =
  map (fun r => g (fst r) (nth (col_pos c (columns df)) (snd r) NaN))
      (filter (fun r => p (fst r)) (rows df)).
Proof.
  intros Hnd. rewrite <- index_filter_label. unfold index.
  rewrite map_map. apply map_ext_in. intros [q r] Hin.
  apply filter_In in Hin as [Hin _]. unfold at_, cell. simpl.
  now rewrite (lookup_In q (rows df) r Hnd Hin).
Qed.

Section StratifiedCells.
Variables counts func : DataFrame.
Variable rare : list string.
Hypothesis Hcounts : well_formed counts = true.
Hypothesis Hfunc : well_formed func = true.
Hypothesis Hindex : index (rows func) = index (rows counts).
Hypothesis Hrare : NoDup rare.
Hypothesis Hincl : incl rare (index (rows func)).
Hypothesis Hlabel : rare <> [] -> ~ In RARE (index (rows func)).

Lemma strat_table_cell (s f q : string) :
  In s (columns counts) -> In f (columns func) ->
  In q (collapsed_index (index (rows func)) rare) ->
  cell_or_zero (strat_table counts func rare) (f, q) s
  = at_ (collapsed counts func rare s) q f.
Proof.
  intros Hs Hf Hq. unfold cell_or_zero, cell, strat_table. cbn [rows columns].
  assert (Hk : In (f, q) (strat_keys func rare)).
  { unfold strat_keys. apply in_flat_map. exists f. split; [exact Hf|].
    now apply in_map. }
  pose proof (pruned_cell (strat_keys func rare) (strat_row counts func rare)
                (f, q) (col_pos s (columns counts)) Hk) as Hp.
  destruct (lookup (f, q) _) as [r|].
  - rewrite Hp.
    + unfold strat_row.
      rewrite (nth_col_pos_map
                 (fun s => get (f, q) (melt (collapsed counts func rare s))))
        by exact Hs.
      now apply strat_value.
    + unfold strat_row. rewrite length_map. now apply col_pos_lt.
  - rewrite Hp.
    + unfold strat_row.
      rewrite (nth_col_pos_map
                 (fun s => get (f, q) (melt (collapsed counts func rare s))))
        by exact Hs.
      now apply strat_value.
    + unfold strat_row. rewrite length_map. now apply col_pos_lt.
Qed.

Lemma strat_table_kept_cell (s f q : string) :
  In s (columns counts) -> In f (columns func) ->
  In q (index (rows counts)) -> ~ In q rare ->
  cell_or_zero (strat_table counts func rare) (f, q) s
  = vmul (at_ counts q s) (at_ func q f).
Proof.
  intros Hs Hf Hq Hnr. rewrite <- Hindex in Hq.
  rewrite strat_table_cell; auto.
  - unfold collapsed. rewrite at_collapsed_kept; rewrite ?depth_index; auto.
    apply at_depth.
  - unfold collapsed_index. destruct rare as [|q0 rs]; [exact Hq|].
    apply in_or_app. left. apply filter_In. split; [exact Hq|].
    apply negb_true_iff. now apply mem_false.
Qed.

Lemma strat_table_rare_cell (s f : string) :
  In s (columns counts) -> In f (columns func) -> rare <> [] ->
  cell_or_zero (strat_table counts func rare) (f, RARE) s
  = rare_contribution counts func rare s f.
Proof.
  intros Hs Hf Hne.
  destruct (well_formed_parts func Hfunc) as (Hnd & _).
  rewrite strat_table_cell; auto.
  - unfold collapsed.
    rewrite at_collapsed_rare; rewrite ?depth_index; auto.
    rewrite rare_subset_sum; rewrite ?depth_index; auto.
    + unfold rare_contribution. rewrite <- Hindex.
      rewrite (map_index_rows_filter func f
                 (fun q v => vmul (at_ counts q s) v)
                 (fun q => mem q rare) Hnd).
      unfold depth, mul_axis0. cbn [rows columns].
      rewrite (filter_map_swap (fun r => mem (fst r) rare)).
      rewrite map_map. cbn [fst snd]. f_equal. apply map_ext. intros r.
      now rewrite nth_map_vmul, get_get_column, vmul_comm.
    + now apply depth_regular.
  - unfold collapsed_index. destruct rare as [|q0 rs]; [congruence|].
    apply in_or_app. right. now left.
Qed.
End StratifiedCells.

Lemma cell_or_zero_cases {K : Type} `{Label K} (df : Frame K) (k : K)
  (c : string) (x : value) :
  cell_or_zero df k c = x ->
  (forall v, cell df k c = Some v -> v = x) /\ (cell df k c = None -> x = zero).
Proof.
  unfold cell_or_zero. destruct (cell df k c) as [v|]; intros <-; split;
    congruence.
Qed.

(** X4. In the stratified table (aligned inputs), the row of a function f
    and of a sequence q that is not rare holds, for every sample s, the
    abundance of q in s times the copy number of f in q; when the table has
    no such row, that product is zero in the sample. *)
Theorem stratified_cell_is_contribution (sched : list nat)
  (counts func : DataFrame) (proc min_reads min_samples : Z)
  (strat : StratFrame) (u : DataFrame) (rare : list string) (f q s : string) :
  aligned counts func = true ->
  funcs_by_sample sched counts func true proc min_reads min_samples
  = OK (Some strat, u) ->
  rare_seqs_of true counts min_reads min_samples = OK rare ->
  In q (index (rows counts)) -> ~ In q rare ->
  In f (columns func) -> In s (columns counts) ->
  (forall v, cell strat (f, q) s = Some v ->
             v = vmul (at_ counts q s) (at_ func q f)) /\
  (cell strat (f, q) s = None -> vmul (at_ counts q s) (at_ func q f) = zero).
Proof.
  intros Hal Hrun Er Hq Hnr Hf Hs.
  destruct (aligned_parts counts func Hal) as (Hc & Hfw & Hidx).
  destruct (funcs_by_sample_strat_shape _ _ _ _ _ _ _ _ Hal Hrun)
    as (rare' & Er' & Est & _).
  assert (rare' = rare) by congruence. subst rare'.
  destruct (rare_seqs_of_facts _ _ _ _ _ Er) as (Hnd & Hincl & Hlabel).
  rewrite <- Hidx in Hincl, Hlabel.
  inversion Est; subst strat.
  apply cell_or_zero_cases. now apply strat_table_kept_cell.
Qed.

Lemma stratified_cell_is_contribution_witness :
  (forall v, cell ex_mixed_stratified ("f1", "seqA") "s2" = Some v ->
             v = vmul (at_ ex_mixed "seqA" "s2")
                      (at_ ex_mixed_function "seqA" "f1")) /\
  (cell ex_mixed_stratified ("f1", "seqA") "s2" = None ->
   vmul (at_ ex_mixed "seqA" "s2") (at_ ex_mixed_function "seqA" "f1") = zero).
Proof.
  apply (stratified_cell_is_contribution [] ex_mixed ex_mixed_function 1 6 1
           ex_mixed_stratified ex_mixed_unstratified ["seqB"; "seqC"]).
  - reflexivity.
  - apply returns_tables_eq. vm_compute. reflexivity.
  - vm_compute. reflexivity.
  - simpl. left. reflexivity.
  - simpl. intros [H|[H|[]]]; discriminate.
  - simpl. left. reflexivity.
  - simpl. right. left. reflexivity.
Defined.

(** X5. When the rare set is not empty, the row of a function f labelled
    RARE in the stratified table (aligned inputs) holds, for every sample s,
    the sum over the rare sequences of abundance times copy number; when the
    table has no such row, that sum is zero in the sample. *)
Theorem rare_row_is_sum_of_rare_sequences (sched : list nat)
  (counts func : DataFrame) (proc min_reads min_samples : Z)
  (strat : StratFrame) (u : DataFrame) (rare : list string) (f s : string) :
  aligned counts func = true ->
  funcs_by_sample sched counts func true proc min_reads min_samples
  = OK (Some strat, u) ->
  rare_seqs_of true counts min_reads min_samples = OK rare ->
  rare <> [] ->
  In f (columns func) -> In s (columns counts) ->
  (forall v, cell strat (f, RARE) s = Some v ->
             v = vsum (map (fun q => vmul (at_ counts q s) (at_ func q f))
                           (filter (fun q => mem q rare)
                                   (index (rows counts))))) /\
  (cell strat (f, RARE) s = None ->
   vsum (map (fun q => vmul (at_ counts q s) (at_ func q f))
             (filter (fun q => mem q rare) (index (rows counts)))) = zero).
Proof.
  intros Hal Hrun Er Hne Hf Hs.
  destruct (aligned_parts counts func Hal) as (Hc & Hfw & Hidx).
  destruct (funcs_by_sample_strat_shape _ _ _ _ _ _ _ _ Hal Hrun)
    as (rare' & Er' & Est & _).
  assert (rare' = rare) by congruence. subst rare'.
  destruct (rare_seqs_of_facts _ _ _ _ _ Er) as (Hnd & Hincl & Hlabel).
  rewrite <- Hidx in Hincl, Hlabel.
  inversion Est; subst strat.
  fold (rare_contribution counts func rare s f).
  apply cell_or_zero_cases. now apply strat_table_rare_cell.
Qed.

Lemma rare_row_is_sum_of_rare_sequences_witness :
  (forall v, cell ex_mixed_stratified ("f1", RARE) "s2" = Some v ->
             v = vsum (map (fun q => vmul (at_ ex_mixed q "s2")
                                          (at_ ex_mixed_function q "f1"))
                           (filter (fun q => mem q ["seqB"; "seqC"])
                                   (index (rows ex_mixed))))) /\
  (cell ex_mixed_stratified ("f1", RARE) "s2" = None ->
   vsum (map (fun q => vmul (at_ ex_mixed q "s2")
                            (at_ ex_mixed_function q "f1"))
             (filter (fun q => mem q ["seqB"; "seqC"])
                     (index (rows ex_mixed)))) = zero).
Proof.
  apply (rare_row_is_sum_of_rare_sequences [] ex_mixed ex_mixed_function 1 6 1
           ex_mixed_stratified ex_mixed_unstratified ["seqB"; "seqC"]).
  - reflexivity.
  - apply returns_tables_eq. vm_compute. reflexivity.
  - vm_compute. reflexivity.
  - discriminate.
  - simpl. left. reflexivity.
  - simpl. right. left. reflexivity.
Defined.

(** X8. A sequence that the classifier put in the rare set has no row of its
    own in the stratified table, and every row of that table is labelled with
    a function of the copy-number table and with a sequence of the abundance
    table that is not rare, or with RARE. *)
Theorem rare_sequences_have_no_row (sched : list nat)
  (counts func : DataFrame) (proc min_reads min_samples : Z)
  (strat : StratFrame) (u : DataFrame) (rare : list string)
  (f q : string) (r : list value) :
  aligned counts func = true ->
  funcs_by_sample sched counts func true proc min_reads min_samples
  = OK (Some strat, u) ->
  rare_seqs_of true counts min_reads min_samples = OK rare ->
  In ((f, q), r) (rows strat) ->
  In f (columns func) /\ ~ In q rare /\
  (In q (index (rows counts)) \/ (q = RARE /\ rare <> [])).
Proof.
  intros Hal Hrun Er Hin.
  destruct (aligned_parts counts func Hal) as (Hc & Hfw & Hidx).
  destruct (funcs_by_sample_strat_shape _ _ _ _ _ _ _ _ Hal Hrun)
    as (rare' & Er' & Est & _).
  assert (rare' = rare) by congruence. subst rare'.
  destruct (rare_seqs_of_facts _ _ _ _ _ Er) as (Hnd & Hincl & Hlabel).
  inversion Est; subst strat.
  unfold strat_table in Hin. cbn [rows] in Hin.
  apply filter_In in Hin as [Hin _].
  apply in_map_iff in Hin as (k & E & Hk). inversion E; subst k.
  apply strat_keys_In in Hk as [Hf Hq]. split; [exact Hf|].
  rewrite Hidx in Hq. unfold collapsed_index in Hq.
  destruct rare as [|q0 rs] eqn:Erare.
  - split; [intros []|]. now left.
  - rewrite <- Erare in *.
    assert (Hne : rare <> []) by (rewrite Erare; discriminate).
    apply in_app_or in Hq as [Hq|[<-|[]]].
    + apply filter_In in Hq as [Hq Hm].
      apply negb_true_iff, mem_false in Hm. auto.
    + split; [|right; auto].
      intros Hr. apply (Hlabel Hne). now apply Hincl.
Qed.

Lemma rare_sequences_have_no_row_witness :
  In "f1" (columns ex_mixed_function) /\ ~ In RARE ["seqB"; "seqC"] /\
  (In RARE (index (rows ex_mixed)) \/
   (RARE = RARE /\ ["seqB"; "seqC"] <> [])).
Proof.
  apply (rare_sequences_have_no_row [] ex_mixed ex_mixed_function 1 6 1
           ex_mixed_stratified ex_mixed_unstratified ["seqB"; "seqC"]
           "f1" RARE [int 2; int 6]).
  - reflexivity.
  - apply returns_tables_eq. vm_compute. reflexivity.
  - vm_compute. reflexivity.
  - simpl. right. left. reflexivity.
Defined.

(** ** When normalisation fails *)





(** ** Rounding to two decimals *)

Lemma rint_comp (q q' : Q) : q == q' -> rint q = rint q'.
Proof.
  intros E. unfold rint. rewrite (Qfloor_comp _ _ E).
  assert (Ec : Qcompare (q - inject_Z (Qfloor q')) (1 # 2) =
               Qcompare (q' - inject_Z (Qfloor q')) (1 # 2)).
  { apply Qcompare_comp; [|reflexivity]. now rewrite E. }
  now rewrite Ec.
Qed.

Lemma rint_Z (n : Z) : rint (inject_Z n) = n.
Proof.
  unfold rint. rewrite Qfloor_Z.
  assert (E : Qcompare (inject_Z n - inject_Z n) (1 # 2) = Lt).
  { apply Qlt_alt.
    setoid_replace (inject_Z n - inject_Z n)%Q with 0%Q by ring.
    reflexivity. }
  now rewrite E.
Qed.



Lemma Q2Qc_this (q : Q) : (Q2Qc q : Q) == q.
Proof. simpl. apply Qred_correct. Qed.

Lemma pow10_nonzero (d : Z) : 0 <= d -> ~ inject_Z (10 ^ d) == 0.
Proof.
  intros Hd E. unfold Qeq in E. simpl in E.
  assert (0 < 10 ^ d) by (apply Z.pow_pos_nonneg; lia). lia.
Qed.

Lemma round_decimals_idempotent (d : Z) (v : value) :
  0 <= d -> round_decimals d (round_decimals d v) = round_decimals d v.
Proof.
  intros Hd. destruct v as [x| | |]; try reflexivity.
  unfold round_decimals. cbv zeta.
  assert (E : rint (Q2Qc (inject_Z (rint (x * inject_Z (10 ^ d)))
                          / inject_Z (10 ^ d)) * inject_Z (10 ^ d))
              = rint (x * inject_Z (10 ^ d))).
  { rewrite <- (rint_Z (rint (x * inject_Z (10 ^ d)))) at 2.
    apply rint_comp. rewrite Q2Qc_this. field. now apply pow10_nonzero. }
  now rewrite E.
Qed.

(** X10. Rounding a table twice is rounding it once: the normalised table,
    which is returned rounded, is unchanged when it is rounded again to the
    same (non-negative) number of decimals. *)
Theorem round_frame_idempotent (d : Z) (df : DataFrame) :
  0 <= d -> round_frame d (round_frame d df) = round_frame d df.
Proof.
  intros Hd. unfold round_frame. cbn [rows columns]. f_equal.
  rewrite map_map. apply map_ext. intros [q r]. cbn [fst snd]. f_equal.
  rewrite map_map. apply map_ext. intros v.
  now apply round_decimals_idempotent.
Qed.

Lemma round_frame_idempotent_witness :
  0 <= 2 /\
  round_frame 2 (round_frame 2 ex_scores) = round_frame 2 ex_scores.
Proof.
  split; [lia|]. apply (round_frame_idempotent 2 ex_scores). lia.
Defined.





(** ** Normalised abundances are not negative *)








(** ** The weighted NSTI is a weighted mean *)








(** ** Which scores the weighted NSTI uses *)

Lemma aligned_inputs_nsti (study pred_function pred_marker : DataFrame)
  (max_nsti : value) (c f m n : DataFrame) :
  aligned_inputs study pred_function pred_marker max_nsti = OK (c, f, m, n) ->
  exists q0,
    In q0 (index (rows (fst (nsti_filter pred_function (mkFrame [] [])
                                         max_nsti)))) /\
    In q0 (index (rows (fst (nsti_filter pred_marker
             (snd (nsti_filter pred_function (mkFrame [] []) max_nsti))
             max_nsti)))) /\
    n = snd (nsti_filter pred_marker
               (snd (nsti_filter pred_function (mkFrame [] []) max_nsti))
               max_nsti).
Proof.
  unfold aligned_inputs.
  destruct (nsti_filter pred_function _ max_nsti) as [pf nv] eqn:Ef.
  destruct (nsti_filter pred_marker nv max_nsti) as [pm nv'] eqn:Em.
  unfold three_df_index_overlap_sort.
  destruct (filter _ (index (rows study))) as [|q0 overlap] eqn:Eo;
    cbn [bind]; [discriminate|].
  intros E. inversion E; subst c f m n; clear E.
  assert (Hq : In q0 (filter (fun q => mem q (index (rows pf)) &&
                                       mem q (index (rows pm)))
                             (index (rows study))))
    by (rewrite Eo; now left).
  apply filter_In in Hq as [_ Hq]. apply andb_true_iff in Hq as [H1 H2].
  apply mem_In in H1, H2. exists q0. cbn [fst snd]. rewrite ?Em.
  cbn [fst snd]. auto.
Qed.

Lemma select_column_not_empty (df : DataFrame) (c q : string) :
  In q (index (rows df)) -> empty (select_column df c) = false.
Proof.
  intros Hq. unfold empty, select_column. cbn [rows columns].
  destruct (rows df) as [|r rs]; [destruct Hq|reflexivity].
Qed.

(** X14. A pipeline run that gets past alignment and normalisation reports a
    weighted NSTI exactly when one of the two copy-number tables carries the
    NSTI column; the scores it weights are those of the marker table when
    that table has the column (they replace the function table's), and those
    of the function table otherwise, in both cases after the rows above the
    threshold were removed; and the abundances it weights are the normalised
    ones. *)
Theorem weighted_nsti_source (sched : list nat)
  (study pred_function pred_marker : DataFrame) (max_nsti : value)
  (min_reads min_samples : Z) (strat_out : bool) (proc : Z) (r : Run) :
  run_stages sched study pred_function pred_marker max_nsti
             min_reads min_samples strat_out proc = OK r ->
  weighted_nsti r =
  option_map (calc_weighted_nsti (norm_table r))
             (kept_nsti pred_function pred_marker max_nsti).
Proof.
  unfold run_stages.
  destruct (aligned_inputs study pred_function pred_marker max_nsti)
    as [[[[c f] m] n]|e] eqn:Eal; cbn [bind]; [|discriminate].
  destruct (norm_by_marker_copies c m 2) as [c'|e]; cbn [bind];
    [|discriminate].
  intros E. inversion E; subst r; clear E. cbn [weighted_nsti norm_table].
  destruct (aligned_inputs_nsti _ _ _ _ _ _ _ _ Eal) as (q0 & Hf & Hm & ->).
  unfold kept_nsti. unfold nsti_filter in *.
  destruct (has_column NSTI pred_marker) eqn:Ecm; cbn [fst snd] in *.
  - rewrite (select_column_not_empty _ NSTI q0); [reflexivity|].
    unfold drop_column, index in Hm. cbn [rows] in Hm.
    rewrite map_map in Hm. exact Hm.
  - destruct (has_column NSTI pred_function) eqn:Ecf; cbn [fst snd] in *.
    + rewrite (select_column_not_empty _ NSTI q0); [reflexivity|].
      unfold drop_column, index in Hf. cbn [rows] in Hf.
      rewrite map_map in Hf. exact Hf.
    + reflexivity.
Qed.

Lemma weighted_nsti_source_witness :
  exists r,
    run_stages [] ex_three_abundance ex_scored_function ex_scored_marker
               (int 2) 1 1 false 1 = OK r /\
    weighted_nsti r =
    option_map (calc_weighted_nsti (norm_table r))
               (kept_nsti ex_scored_function ex_scored_marker (int 2)).
Proof.
  destruct (run_stages [] ex_three_abundance ex_scored_function
                       ex_scored_marker (int 2) 1 1 false 1)
    as [r|e] eqn:E.
  - exists r. split; [reflexivity|].
    now apply (weighted_nsti_source [] ex_three_abundance ex_scored_function
                 ex_scored_marker (int 2) 1 1 false 1).
  - vm_compute in E. discriminate.
Defined.

(** ** The confidence filter leaves the copy numbers alone *)

Lemma nth_remove_nth {A : Type} (c x : string) (cols : list string)
  (r : list A) (d : A) :
  In c cols -> c <> x ->
  nth (col_pos c (remove_nth (col_pos x cols) cols))
      (remove_nth (col_pos x cols) r) d
  = nth (col_pos c cols) r d.
Proof.
  revert r. induction cols as [|c0 cols IH]; intros r Hin Hne; [destruct Hin|].
  cbn [col_pos]. destruct (String.eqb_spec x c0) as [->|Hx].
  - destruct (String.eqb_spec c c0) as [->|Hc]; [congruence|].
    destruct Hin as [E|Hin]; [congruence|].
    destruct r as [|v r]; simpl.
    + now destruct (col_pos c cols).
    + reflexivity.
  - destruct r as [|v r]; simpl.
    + destruct (c =? c0)%string; [reflexivity|].
      now destruct (col_pos c (remove_nth (col_pos x cols) cols)).
    + destruct (String.eqb_spec c c0) as [->|Hc]; [reflexivity|].
      destruct Hin as [E|Hin]; [congruence|]. now apply IH.
Qed.

Lemma In_remove_nth (c x : string) (cols : list string) :
  In c cols -> c <> x -> In c (remove_nth (col_pos x cols) cols).
Proof.
  induction cols as [|c0 cols IH]; intros Hin Hne; [destruct Hin|].
  cbn [col_pos]. destruct (String.eqb_spec x c0) as [->|Hx]; simpl.
  - destruct Hin as [E|Hin]; [congruence|exact Hin].
  - destruct Hin as [E|Hin]; [now left|right; now apply IH].
Qed.

Lemma not_In_remove_nth (x : string) (cols : list string) :
  NoDup cols -> ~ In x (remove_nth (col_pos x cols) cols).
Proof.
  induction cols as [|c0 cols IH]; intros Hnd; [intros []|].
  inversion Hnd as [|? ? Hc0 Hnd']; subst.
  cbn [col_pos]. destruct (String.eqb_spec x c0) as [->|Hx]; simpl.
  - exact Hc0.
  - intros [E|Hin]; [congruence|]. now apply IH.
Qed.

Lemma lookup_filter_NoDup {K A : Type} `{Label K} (p : K * A -> bool)
  (l : list (K * A)) (k : K) (a : A) :
  NoDup (index l) -> lookup k l = Some a -> p (k, a) = true ->
  lookup k (filter p l) = Some a.
Proof.
  intros Hnd Hl Hp. apply lookup_In.
  - unfold index. apply NoDup_map_NoDup_ForallPairs.
    + intros x y Hx Hy E. apply filter_In in Hx as [Hx _].
      apply filter_In in Hy as [Hy _]. destruct x as [kx ax], y as [ky ay].
      simpl in E. subst ky. f_equal.
      now apply (NoDup_index_unique l kx ax ay).
    + apply NoDup_filter. now apply (NoDup_map_inv fst).
  - apply filter_In. split; [now apply lookup_Some_In|exact Hp].
Qed.

(** X15. Filtering a copy-number table on its NSTI column removes that
    column and nothing else: for a sequence whose score passes the
    threshold, every other column of the filtered table holds the value it
    held before, and the score itself is kept, under the column label
    [metadata_NSTI], in the one-column table of NSTI values. *)
Theorem nsti_filter_keeps_copy_numbers (pred nsti_val : DataFrame)
  (max_nsti : value) (q : string) (score : value) :
  has_column NSTI pred = true ->
  distinct (index (rows pred)) = true ->
  distinct (columns pred) = true ->
  cell pred q NSTI = Some score ->
  vleb score max_nsti = true ->
  ~ In NSTI (columns (fst (nsti_filter pred nsti_val max_nsti))) /\
  (forall c, In c (columns pred) -> c <> NSTI ->
     In c (columns (fst (nsti_filter pred nsti_val max_nsti))) /\
     cell (fst (nsti_filter pred nsti_val max_nsti)) q c = cell pred q c) /\
  columns (snd (nsti_filter pred nsti_val max_nsti)) = [NSTI] /\
  cell (snd (nsti_filter pred nsti_val max_nsti)) q NSTI = Some score.
Proof.
  intros Hcol Hd Hdc Hcell Hle.
  apply distinct_NoDup in Hd, Hdc.
  unfold nsti_filter. rewrite Hcol. cbn [fst snd].
  unfold cell in Hcell.
  destruct (lookup q (rows pred)) as [r|] eqn:El; [|discriminate].
  inversion Hcell as [Escore]; clear Hcell.
  assert (Hkeep : lookup q (rows (filter_le pred NSTI max_nsti)) = Some r).
  { unfold filter_le. cbn [rows].
    apply lookup_filter_NoDup; [exact Hd|exact El|].
    cbn [snd]. now rewrite Escore. }
  split; [|split; [|split]].
  - unfold drop_column, filter_le. cbn [columns]. now apply not_In_remove_nth.
  - intros c Hc Hne. split.
    + unfold drop_column, filter_le. cbn [columns]. now apply In_remove_nth.
    + unfold cell, drop_column. cbn [rows columns].
      rewrite (lookup_map_rows
                 (fun _ r => remove_nth (col_pos NSTI
                               (columns (filter_le pred NSTI max_nsti))) r)).
      rewrite Hkeep, El. cbn [option_map]. f_equal.
      unfold filter_le. cbn [columns]. now apply nth_remove_nth.
  - reflexivity.
  - unfold cell, select_column. cbn [rows columns].
    rewrite (lookup_map_rows
               (fun _ r => [nth (col_pos NSTI
                              (columns (filter_le pred NSTI max_nsti))) r
                              NaN])).
    rewrite Hkeep. cbn [option_map]. unfold filter_le. cbn [columns].
    simpl col_pos. cbn [nth]. now rewrite Escore.
Qed.

Lemma nsti_filter_keeps_copy_numbers_witness :
  cell (snd (nsti_filter ex_scored_function (mkFrame [] []) (int 2)))
       "seqA" NSTI = Some (frac 1 2).
Proof.
  apply (nsti_filter_keeps_copy_numbers ex_scored_function (mkFrame [] [])
           (int 2) "seqA" (frac 1 2)); reflexivity.
Defined.

(** ** Collapsing rare rows inside one sample *)



(** ** The shape of the stratified table *)

Lemma strat_keys_NoDup (cols labels : list string) :
  NoDup cols -> NoDup labels ->
  NoDup (flat_map (fun f => map (pair f) labels) cols).
Proof.
  intros Hc Hl. induction Hc as [|c cols Hnin Hc IH]; simpl; [constructor|].
  apply NoDup_app.
  - apply (NoDup_map_inv snd). rewrite map_map. simpl. now rewrite map_id.
  - exact IH.
  - intros [f q] Hin Hin'. apply in_map_iff in Hin as (q' & E & _).
    inversion E; subst. apply in_flat_map in Hin' as (f' & Hf' & Hin').
    apply in_map_iff in Hin' as (q'' & E' & _). inversion E'; subst.
    contradiction.
Qed.

(** X17. The stratified table (aligned inputs) has the sample identifiers of
    the abundance table as its columns, in their order, one value per sample
    in every row, no row that is zero throughout, and no two rows with the
    same (function, sequence) label. *)
Theorem stratified_table_shape (sched : list nat) (counts func : DataFrame)
  (proc min_reads min_samples : Z) (strat : StratFrame) (u : DataFrame) :
  aligned counts func = true ->
  funcs_by_sample sched counts func true proc min_reads min_samples
  = OK (Some strat, u) ->
  columns strat = columns counts /\
  full_width strat = true /\
  (forall r, In r (rows strat) -> nonzero_row r = true) /\
  NoDup (index (rows strat)).
Proof.
  intros Hal Hrun.
  destruct (aligned_parts counts func Hal) as (Hc & Hfw & Hidx).
  destruct (funcs_by_sample_strat_shape _ _ _ _ _ _ _ _ Hal Hrun)
    as (rare & Er & Est & _).
  destruct (rare_seqs_of_facts _ _ _ _ _ Er) as (Hnd & Hincl & Hlabel).
  rewrite <- Hidx in Hincl, Hlabel.
  inversion Est; subst strat.
  destruct (strat_table_regular counts func rare Hc Hfw Hidx Hnd Hincl Hlabel)
    as [Hw _].
  split; [reflexivity|]. split; [exact Hw|]. split.
  - intros r Hr. unfold strat_table in Hr. cbn [rows] in Hr.
    apply filter_In in Hr. tauto.
  - unfold strat_table. cbn [rows].
    rewrite (filter_map_label_gen nonzero_row).
    unfold index. rewrite map_map. cbn [fst]. rewrite map_id.
    apply NoDup_filter. unfold strat_keys.
    destruct (well_formed_parts func Hfw) as (Hndf & Hcols & _).
    apply strat_keys_NoDup; [exact Hcols|].
    destruct (list_eq_dec string_dec rare []) as [->|Hne]; [exact Hndf|].
    unfold collapsed_index. destruct rare as [|q0 rs]; [congruence|].
    apply NoDup_app.
    + now apply NoDup_filter.
    + constructor; [intros []|constructor].
    + intros a Ha [<-|[]]. apply filter_In in Ha as [Ha _].
      now apply Hlabel.
Qed.

Lemma stratified_table_shape_witness :
  columns ex_mixed_stratified = columns ex_mixed /\
  full_width ex_mixed_stratified = true /\
  (forall r, In r (rows ex_mixed_stratified) -> nonzero_row r = true) /\
  NoDup (index (rows ex_mixed_stratified)).
Proof.
  apply (stratified_table_shape [] ex_mixed ex_mixed_function 1 6 1
           ex_mixed_stratified ex_mixed_unstratified).
  - reflexivity.
  - apply returns_tables_eq. vm_compute. reflexivity.
Defined.

(** ** What the classifier returns *)

Lemma all_zero_none_present (r : list value) :
  forallb (fun v => veqb v zero) r = true ->
  filter (fun v => vneb v zero) r = [].
Proof.
  induction r as [|v r IH]; simpl; [reflexivity|].
  intros H. apply andb_true_iff in H as [Hv Hr].
  unfold vneb at 1. rewrite Hv. simpl. now apply IH.
Qed.

(** X18. The classifier returns a list exactly when no sequence of the table
    is labelled RARE; the list names each rare sequence once, names only
    sequences of the table, and never contains the label RARE; a sequence
    that is zero in every sample is in it as soon as [min_samples] is at
    least 1. *)
Theorem id_rare_seqs_result (counts : DataFrame) (min_reads min_samples : Z) :
  ((exists rare, id_rare_seqs counts min_reads min_samples = OK rare) <->
   ~ In RARE (index (rows counts))) /\
  (forall rare, id_rare_seqs counts min_reads min_samples = OK rare ->
     NoDup rare /\ incl rare (index (rows counts)) /\ ~ In RARE rare /\
     forall q r, In (q, r) (rows counts) ->
       forallb (fun v => veqb v zero) r = true -> 1 <= min_samples ->
       In q rare).
Proof.
  unfold id_rare_seqs. split.
  - destruct (mem RARE (index (rows counts))) eqn:Em.
    + apply mem_In in Em. split; [intros [rare E]; discriminate|tauto].
    + apply mem_false in Em. split; [tauto|]. intros _. eexists. reflexivity.
  - intros rare. destruct (mem RARE (index (rows counts))) eqn:Em;
      [discriminate|].
    apply mem_false in Em. intros E. inversion E; subst rare; clear E.
    assert (Hincl : incl (set_union (low_freq_seq counts min_reads)
                                    (few_samples_seq counts min_samples))
                         (index (rows counts))).
    { intros q Hq. apply set_union_In in Hq as [Hq|Hq].
      - apply low_freq_seq_In in Hq as (r & Hin & _).
        apply (in_map fst) in Hin. exact Hin.
      - apply few_samples_seq_In in Hq as (r & Hin & _).
        apply (in_map fst) in Hin. exact Hin. }
    split; [|split; [exact Hincl|split]].
    + apply set_union_NoDup; apply NoDup_nodup.
    + intros Hr. apply Em. now apply Hincl.
    + intros q r Hin Hz Hms. apply set_union_In. right.
      apply few_samples_seq_In. exists r. split; [exact Hin|].
      unfold samples_present.
      rewrite (all_zero_none_present r Hz). simpl. lia.
Qed.

Lemma id_rare_seqs_result_witness :
  NoDup ["seqZ"] /\ incl ["seqZ"] (index (rows ex_absent)) /\
  ~ In RARE ["seqZ"] /\
  forall q r, In (q, r) (rows ex_absent) ->
    forallb (fun v => veqb v zero) r = true -> 1 <= 1 -> In q ["seqZ"].
Proof.
  apply (id_rare_seqs_result ex_absent 0 1).
  vm_compute. reflexivity.
Defined.
